(** * registry_client: a shallow embedding of the reference parser, the
      challenge handling, the manifest-list filter, the chain-ID fold and the
      pull pipeline, with the properties stated about them.

    Layout: the Python prelude ([Py]), SHA-256 ([hashlib]), the
    regular-expression engine ([Re]), then one module per source file
    ([utlis], [reference], [client]), the notions the properties are stated
    with ([Props]) and concrete registries ([Scenarios]); the lemmas and
    theorems follow the definitions. *)

From Stdlib Require Import Ascii String NArith DecimalString.
From stdpp Require Import base decidable option list gmap strings.

Set Default Proof Using "Type".
Local Open Scope list_scope.

(** ** Python prelude

    A Python [str] is embedded as a list of 8-bit characters.  The
    embedding is that of the ASCII texts: on them every definition below is
    the Python one.  The patterns of reference.py match ASCII characters
    only, so a text [parse] accepts is an ASCII text.  The case predicates
    know the ASCII letters only: [islower] is [str.islower()] on the texts
    that satisfy [isascii]. *)
Module Py.

Abbreviation str := (list ascii) (only parsing).

(** A string literal of the source. *)
Definition s (x : string) : str := list_ascii_of_string x.

(** The exceptions the embedded code raises. *)
Inductive exn : Type :=
| ErrNameEmpty
| ErrNameContainsUppercase
| ErrReferenceInvalidFormat
| ErrNameTooLong
| Exception (msg : str)
| AssertionError
| ValueError
| AttributeError
| TypeError
| IndexError
| NameError (name : str)
| FileNotFoundError (path : str).

(** The outcome of a call: a value or a raised exception. *)
Inductive result (A : Type) : Type :=
| Ok (a : A)
| Raise (e : exn).
Arguments Ok {A} a.
Arguments Raise {A} e.

Definition bind {A B} (m : result A) (f : A -> result B) : result B :=
  match m with
  | Ok a => f a
  | Raise e => Raise e
  end.

Definition code (c : ascii) : nat := nat_of_ascii c.

Definition in_range (lo hi : string) (c : ascii) : bool :=
  match lo, hi with
  | String l EmptyString, String h EmptyString =>
      (code l <=? code c) && (code c <=? code h)
  | _, _ => false
  end.

Definition one_of (cs : string) (c : ascii) : bool :=
  existsb (Ascii.eqb c) (list_ascii_of_string cs).

(** The double quote character. *)
Definition dquote : ascii := ascii_of_nat 34.

Definition is_upper (c : ascii) : bool := in_range "A" "Z" c.
Definition is_lower (c : ascii) : bool := in_range "a" "z" c.

(** [str.isascii()]: every character is below 128. *)
Definition isascii (x : str) : bool := forallb (fun c => code c <? 128) x.

(** [str.islower()] of an ASCII text: no uppercase character and at least
    one lowercase one. *)
Definition islower (x : str) : bool :=
  forallb (fun c => negb (is_upper c)) x && existsb is_lower x.


(** [x.find(c)] for a one-character needle: the index of the first
    occurrence, [None] standing for [-1]. *)
Fixpoint find (c : ascii) (x : str) : option nat :=
  match x with
  | [] => None
  | a :: x' => if Ascii.eqb a c then Some 0 else S <$> find c x'
  end.

(** [c in x] for a one-character needle. *)
Definition contains (c : ascii) (x : str) : bool := existsb (Ascii.eqb c) x.

(** [x.split(c)] for a one-character separator. *)
Fixpoint split (c : ascii) (x : str) : list str :=
  match x with
  | [] => [[]]
  | a :: x' =>
      if Ascii.eqb a c then [] :: split c x'
      else match split c x' with
           | w :: ws => (a :: w) :: ws
           | [] => [[a]]
           end
  end.

(** [x.partition(c)[0]]: the part before the first separator, the whole
    string when there is none. *)
Definition partition_head (c : ascii) (x : str) : str :=
  match find c x with
  | Some i => take i x
  | None => x
  end.

Fixpoint lstrip (c : ascii) (x : str) : str :=
  match x with
  | a :: x' => if Ascii.eqb a c then lstrip c x' else x
  | [] => []
  end.

(** [x.strip(c)] for a one-character set. *)
Definition strip (c : ascii) (x : str) : str :=
  rev (lstrip c (rev (lstrip c x))).

Fixpoint startswith (p x : str) : bool :=
  match p, x with
  | [], _ => true
  | a :: p', b :: x' => Ascii.eqb a b && startswith p' x'
  | _ :: _, [] => false
  end.

Definition eqb (x y : str) : bool := bool_decide (x = y).

(** [d.get(k, None)] of a dictionary written as its list of items. *)
Definition dict_get {K V} `{EqDecision K} (d : list (K * V)) (k : K) : option V :=
  snd <$> List.find (fun kv => bool_decide (fst kv = k)) d.

(** [sep.join(xs)]. *)
Fixpoint join (sep : str) (xs : list str) : str :=
  match xs with
  | [] => []
  | [x] => x
  | x :: xs' => x ++ sep ++ join sep xs'
  end.

End Py.

Notation "x >>= f" := (Py.bind x f) (at level 50, left associativity, only parsing).

(** ** hashlib

    [hashlib.sha256(x).hexdigest()], following FIPS 180-4 on 32-bit words
    kept in [N] with the wrap-around written out. *)
Module hashlib.
Local Open Scope N_scope.

Definition mask32 : N := 4294967295.
Definition add32 (a b : N) : N := N.land (a + b) mask32.
Definition rotr (n x : N) : N :=
  N.land (N.lor (N.shiftr x n) (N.shiftl x (32 - n))) mask32.
Definition shr (n x : N) : N := N.shiftr x n.
Definition not32 (x : N) : N := N.lxor x mask32.

Definition Ch (x y z : N) : N := N.lxor (N.land x y) (N.land (not32 x) z).
Definition Maj (x y z : N) : N :=
  N.lxor (N.lxor (N.land x y) (N.land x z)) (N.land y z).
Definition Sigma0 (x : N) : N := N.lxor (N.lxor (rotr 2 x) (rotr 13 x)) (rotr 22 x).
Definition Sigma1 (x : N) : N := N.lxor (N.lxor (rotr 6 x) (rotr 11 x)) (rotr 25 x).
Definition sigma0 (x : N) : N := N.lxor (N.lxor (rotr 7 x) (rotr 18 x)) (shr 3 x).
Definition sigma1 (x : N) : N := N.lxor (N.lxor (rotr 17 x) (rotr 19 x)) (shr 10 x).

(** The primes below [n], in order. *)
Definition primes_below (n : nat) : list N :=
  N.of_nat <$>
    filter (fun p => forallb (fun d => negb (p mod d =? 0)%nat) (seq 2 (p - 2)) = true)
           (seq 2 (n - 2)).

(** The integer cube root: the largest [r] below [2 ^ bits] whose cube is at
    most [n], found bit by bit. *)
Fixpoint cbrt_bits (bits : nat) (n r : N) : N :=
  match bits with
  | O => r
  | S b =>
      let r' := r + N.shiftl 1 (N.of_nat b) in
      cbrt_bits b n (if r' * r' * r' <=? n then r' else r)
  end.

(** The round constants: the first 32 bits of the fractional parts of the
    cube roots of the first 64 primes. *)
Definition K : list N :=
  Eval vm_compute in
    (fun p => N.land (cbrt_bits 36 (N.shiftl p 96) 0) mask32) <$> primes_below 312.

(** The initial hash value: the first 32 bits of the fractional parts of the
    square roots of the first 8 primes. *)
Definition H0 : list N :=
  Eval vm_compute in
    (fun p => N.land (N.sqrt (N.shiftl p 64)) mask32) <$> primes_below 20.

(** The [n] low bytes of [x], most significant first. *)
Definition be_bytes (n : nat) (x : N) : list N :=
  (fun i => N.land (N.shiftr x (8 * N.of_nat i)) 255) <$> rev (seq 0 n).

(** The message with its padding: a one bit, zeros up to 56 modulo 64, and
    the bit length on eight bytes. *)
Definition pad (msg : list N) : list N :=
  let l := length msg in
  let z := ((64 - ((l + 9) mod 64)) mod 64)%nat in
  msg ++ [128] ++ replicate z 0 ++ be_bytes 8 (8 * N.of_nat l).

Fixpoint words (n : nat) (bs : list N) : list N :=
  match n, bs with
  | S n', b0 :: b1 :: b2 :: b3 :: bs' =>
      (N.shiftl b0 24 + N.shiftl b1 16 + N.shiftl b2 8 + b3) :: words n' bs'
  | _, _ => []
  end.

(** The message schedule, newest word first. *)
Fixpoint schedule (n : nat) (w : list N) : list N :=
  match n with
  | O => w
  | S n' =>
      let w2 := nth 1 w 0 in
      let w7 := nth 6 w 0 in
      let w15 := nth 14 w 0 in
      let w16 := nth 15 w 0 in
      schedule n' (add32 (add32 (sigma1 w2) w7) (add32 (sigma0 w15) w16) :: w)
  end.

Definition round (st : list N) (kw : N * N) : list N :=
  match st with
  | [a; b; c; d; e; f; g; h] =>
      let t1 := add32 (add32 (add32 h (Sigma1 e)) (add32 (Ch e f g) (fst kw))) (snd kw) in
      let t2 := add32 (Sigma0 a) (Maj a b c) in
      [add32 t1 t2; a; b; c; add32 d t1; e; f; g]
  | _ => st
  end.

Definition compress (h : list N) (block : list N) : list N :=
  let w := rev (schedule 48 (rev (words 16 block))) in
  let st := fold_left round (zip K w) h in
  (fun p => add32 (fst p) (snd p)) <$> zip h st.

Fixpoint blocks (n : nat) (h : list N) (bs : list N) : list N :=
  match n with
  | O => h
  | S n' => blocks n' (compress h (take 64 bs)) (drop 64 bs)
  end.

Definition digest (msg : list N) : list N :=
  let p := pad msg in
  mbind (be_bytes 4) (blocks (length p / 64) H0 p).

Definition hexdigit (n : N) : ascii :=
  if n <? 10 then ascii_of_N (48 + n) else ascii_of_N (87 + n).

Definition hex (bs : list N) : list ascii :=
  mbind (fun b => [hexdigit (N.shiftr b 4); hexdigit (N.land b 15)]) bs.

Definition sha256_hexdigest (x : list ascii) : list ascii :=
  hex (digest (N_of_ascii <$> x)).

End hashlib.

(** ** Regular expressions

    The patterns of reference.py are compiled by RE2.  They are embedded as
    syntax trees, and matched by a backtracking matcher that tries the
    alternatives in RE2's order of preference (left alternative first,
    greedy repetition) and records the capture groups, numbered by their
    opening parenthesis. *)
Module Re.

Inductive regex : Type :=
| Eps
| Chr (p : ascii -> bool)
| Seq (r1 r2 : regex)
| Alt (r1 r2 : regex)
| Star (r : regex)
| Cap (r : regex).

(** The capture groups: [None] for a group that did not take part. *)
Abbreviation caps := (list (option (list ascii))) (only parsing).

Fixpoint ngroups (r : regex) : nat :=
  match r with
  | Eps | Chr _ => 0
  | Seq r1 r2 | Alt r1 r2 => ngroups r1 + ngroups r2
  | Star r => ngroups r
  | Cap r => S (ngroups r)
  end.

(** The greedy repetition of a matcher [step]: at most [n] iterations, each
    of which must consume something, then the continuation [k]. *)
Fixpoint star_loop
    (step : list ascii -> caps -> (list ascii -> caps -> option caps) -> option caps)
    (k : list ascii -> caps -> option caps)
    (n : nat) (x : list ascii) (c : caps) {struct n} : option caps :=
  match n with
  | 0 => k x c
  | S n' =>
      match step x c
              (fun x' c' =>
                 if length x' <? length x then star_loop step k n' x' c' else None) with
      | Some res => Some res
      | None => k x c
      end
  end.

(** [exec r i x c k]: match [r], whose first group has number [i], at the
    start of [x] with the groups [c] so far, and pass what is left of [x]
    to the continuation [k]; the first success in the order of preference
    wins. *)
Fixpoint exec (r : regex) (i : nat) (x : list ascii) (c : caps)
    (k : list ascii -> caps -> option caps) {struct r} : option caps :=
  match r with
  | Eps => k x c
  | Chr p =>
      match x with
      | a :: x' => if p a then k x' c else None
      | [] => None
      end
  | Seq r1 r2 =>
      exec r1 i x c (fun x' c' => exec r2 (i + ngroups r1) x' c' k)
  | Alt r1 r2 =>
      match exec r1 i x c k with
      | Some res => Some res
      | None => exec r2 (i + ngroups r1) x c k
      end
  | Star r1 => star_loop (exec r1 i) k (length x) x c
  | Cap r1 =>
      exec r1 (S i) x c
        (fun x' c' => k x' (<[i := Some (take (length x - length x') x)]> c'))
  end.

(** The end of the text, [$]. *)
Definition at_end (x : list ascii) (c : caps) : option caps :=
  match x with
  | [] => Some c
  | _ :: _ => None
  end.

(** A pattern anchored at both ends, [^r$], against the whole of [x]. *)
Definition fullmatch (r : regex) (x : list ascii) : option caps :=
  exec r 0 x (replicate (ngroups r) None) at_end.

(** The groups as Python hands them out: the empty string for a group that
    did not take part. *)
Definition groups (c : caps) : list (list ascii) := default [] <$> c.

(** [findall] of an anchored pattern: no match, or the groups of the one
    match. *)
Definition findall (r : regex) (x : list ascii) : list (list (list ascii)) :=
  match fullmatch r x with
  | Some c => [groups c]
  | None => []
  end.

(** [findall] of a single character class: the matching characters. *)
Definition findall_class (p : ascii -> bool) (x : list ascii) : list (list ascii) :=
  (fun a => [a]) <$> filter (fun a => p a = true) x.

(** Derived forms. *)
Definition Opt (r : regex) : regex := Alt r Eps.
Definition Plus (r : regex) : regex := Seq r (Star r).

(** [r{n}] *)
Fixpoint Exactly (n : nat) (r : regex) : regex :=
  match n with
  | 0 => Eps
  | S n' => Seq r (Exactly n' r)
  end.

(** [r{0,n}] *)
Fixpoint UpTo (n : nat) (r : regex) : regex :=
  match n with
  | 0 => Eps
  | S n' => Opt (Seq r (UpTo n' r))
  end.

(** [r{n,}] *)
Definition AtLeast (n : nat) (r : regex) : regex := Seq (Exactly n r) (Star r).

(** The declarative reading of a match with its groups: [matches r i w c c']
    when [r] (first group [i]) matches exactly [w] and takes the groups
    from [c] to [c']. *)
Inductive matches : regex -> nat -> list ascii -> caps -> caps -> Prop :=
| MEps i c : matches Eps i [] c c
| MChr p a i c : p a = true -> matches (Chr p) i [a] c c
| MSeq r1 r2 i w1 w2 c c' c'' :
    matches r1 i w1 c c' ->
    matches r2 (i + ngroups r1) w2 c' c'' ->
    matches (Seq r1 r2) i (w1 ++ w2) c c''
| MAltL r1 r2 i w c c' :
    matches r1 i w c c' -> matches (Alt r1 r2) i w c c'
| MAltR r1 r2 i w c c' :
    matches r2 (i + ngroups r1) w c c' -> matches (Alt r1 r2) i w c c'
| MStar0 r i c : matches (Star r) i [] c c
| MStarS r i w1 w2 c c' c'' :
    matches r i w1 c c' ->
    matches (Star r) i w2 c' c'' ->
    matches (Star r) i (w1 ++ w2) c c''
| MCap r i w c c' :
    matches r (S i) w c c' ->
    matches (Cap r) i w c (<[i := Some w]> c').

(** The language of a pattern, groups left aside. *)
Inductive lang : regex -> list ascii -> Prop :=
| LEps : lang Eps []
| LChr p a : p a = true -> lang (Chr p) [a]
| LSeq r1 r2 w1 w2 : lang r1 w1 -> lang r2 w2 -> lang (Seq r1 r2) (w1 ++ w2)
| LAltL r1 r2 w : lang r1 w -> lang (Alt r1 r2) w
| LAltR r1 r2 w : lang r2 w -> lang (Alt r1 r2) w
| LStar0 r : lang (Star r) []
| LStarS r w1 w2 : lang r w1 -> lang (Star r) w2 -> lang (Star r) (w1 ++ w2)
| LCap r w : lang r w -> lang (Cap r) w.

(** Whether a pattern can match the empty text. *)
Fixpoint nullable (r : regex) : bool :=
  match r with
  | Eps => true
  | Chr _ => false
  | Seq r1 r2 => nullable r1 && nullable r2
  | Alt r1 r2 => nullable r1 || nullable r2
  | Star _ => true
  | Cap r => nullable r
  end.

(** A continuation that accepts [x] whatever the groups are. *)
Definition accepts (k : list ascii -> caps -> option caps) (x : list ascii) : Prop :=
  forall c, is_Some (k x c).

End Re.


(** ** registry_client/utlis.py *)
Module utlis.
Import Py.

Definition IMAGE_DEFAULT_TAG : str := s "latest".
Definition DEFAULT_REPO : str := s "library".
Definition DEFAULT_REGISTRY_HOST : str := s "registry-1.docker.io".
Definition DEFAULT_CLIENT_ID : str := s "registry-python-client".

(** Modelled from the spec: registry_client/digest.py is not among the
    sources.  A digest is its canonical [algorithm:hex] string, [value];
    [str] of a digest is that string, and so are the slices the client
    takes of it. *)
Record Digest : Type := { value : str }.
#[global] Instance Digest_eq_dec : EqDecision Digest.
Proof. solve_decision. Defined.

Definition Digest_str (d : Digest) : str := value d.

(** Modelled from the spec: registry_client/platforms.py is not among the
    sources.  A platform is [{os, architecture, variant?}], compared for
    exact equality of the three. *)
Record Platform : Type := {
  os : str;
  architecture : str;
  variant : option str
}.
#[global] Instance Platform_eq_dec : EqDecision Platform.
Proof. solve_decision. Defined.

Fixpoint get_chain_id (parent : str) (ids : list str) : str :=
  match ids with
  | [] => parent
  | id0 :: ids' =>
      if eqb parent (s "") then get_chain_id id0 ids'
      else
        let value := hashlib.sha256_hexdigest (parent ++ s " " ++ id0) in
        let value := s "sha256:" ++ value in
        get_chain_id value ids'
  end.

(** [result[-1]] of a list that is never empty here. *)
Definition last_of (result : list str) : str := default (s "") (last result).

Definition diff_ids_to_chain_ids (diff_ids : list str) : result (list str) :=
  match diff_ids with
  | [] => Raise AssertionError
  | d0 :: rest =>
      Ok (fold_left
            (fun result diff_id => result ++ [get_chain_id (last_of result) [diff_id]])
            rest [d0])
  end.

Record RepositoryScope : Type := {
  repo_name : str;
  actions : list str;
  class_name : str
}.

Definition RepositoryScope_str (self : RepositoryScope) : str :=
  let repo_type := s "repository" in
  let repo_type :=
    if negb (eqb (class_name self) (s "")) && negb (eqb (class_name self) (s "image"))
    then repo_type ++ s "(" ++ class_name self ++ s ")"
    else repo_type in
  repo_type ++ s ":" ++ repo_name self ++ s ":" ++ join (s ",") (actions self).

Record RegistryScope : Type := {
  rs_name : str;
  rs_actions : list str
}.

Definition RegistryScope_str (self : RegistryScope) : str :=
  s "registry:" ++ rs_name self ++ s ":" ++ join (s ",") (rs_actions self).

Inductive ScopeType : Type :=
| Registry (sc : RegistryScope)
| Repository (sc : RepositoryScope).

(** The scope classes derive from pydantic's [BaseModel], whose
    [__init__(self, **data)] takes the fields as keyword arguments only, as
    [ChallengeHandler.__init__(self, **data)] below does.  A call that
    passes arguments by position raises [TypeError] when the arguments are
    bound, before a field is looked at.  [RepositoryScope(repo_name, actions)]
    and [RegistryScope(rs_name, actions)] are such calls. *)
Definition RepositoryScope_positional (repo_name : str) (actions : list str)
    : result RepositoryScope :=
  Raise TypeError.


Inductive ChallengeScheme : Type := Bearer | Basic.
#[global] Instance ChallengeScheme_eq_dec : EqDecision ChallengeScheme.
Proof. solve_decision. Defined.

(** [ChallengeScheme(scheme)]: the member with that value, [ValueError]
    when there is none. *)
Definition ChallengeScheme_of (scheme : str) : result ChallengeScheme :=
  if eqb scheme (s "Bearer") then Ok Bearer
  else if eqb scheme (s "Basic") then Ok Basic
  else Raise ValueError.

Record PingResp : Type := {
  headers : str;
  scheme : ChallengeScheme;
  realm : str;
  service : str
}.

(** [dict(param.split("=") for param in params)]: every element must have
    exactly two parts; a later key replaces an earlier one. *)
Fixpoint dict_of_params (params : list str) (d : gmap (list ascii) (list ascii))
    : result (gmap (list ascii) (list ascii)) :=
  match params with
  | [] => Ok d
  | param :: params' =>
      match split "=" param with
      | [k; v] => dict_of_params params' (<[k := v]> d)
      | _ => Raise ValueError
      end
  end.

(** [PingResp(headers)], that is the dataclass with its [__post_init__]. *)
Definition PingResp_init (headers : str) : result PingResp :=
  match split " " headers with
  | [scheme; params] =>
      dict_of_params (split "," params) ∅ >>= fun param_dict =>
      ChallengeScheme_of scheme >>= fun scheme =>
      match param_dict !! s "realm" with
      | None => Raise AttributeError
      | Some realm =>
          match param_dict !! s "service" with
          | None => Raise AttributeError
          | Some service =>
              Ok {| headers := headers; scheme := scheme;
                    realm := strip dquote realm; service := strip dquote service |}
          end
      end
  | _ => Raise ValueError
  end.

(** The two classes that derive from [ChallengeHandler], and an instance:
    its class and its fields. *)
Inductive handler_class : Type := BearerChallengeHandler | BasicChallengeHandler.

Record ChallengeHandler : Type := {
  cls : handler_class;
  ping_resp : PingResp;
  username : option str;
  password : option str;
  scope : ScopeType;
  client_id : str
}.

(** [handler(challenge, username, password, scope)], a call with four
    arguments by position: [__init__(self, **data)] has no positional
    parameter besides [self], so binding the arguments raises [TypeError]
    and no instance is built. *)
Definition ChallengeHandler_positional (handler : handler_class) (challenge : PingResp)
    (username password : option str) (scope : ScopeType) : result ChallengeHandler :=
  Raise TypeError.

Record LayerResp : Type := {
  mediaType : str;
  size : nat;
  digest : Digest;
  platform : option Platform
}.

Record ManifestsResp : Type := {
  schemaVersion : nat;
  m_mediaType : str;
  config : LayerResp;
  layers : list LayerResp
}.

Record ManifestsListResp : Type := {
  manifests : list LayerResp;
  l_mediaType : str;
  l_schemaVersion : str
}.

(** The [for ... else] of [filter]: the first manifest whose platform is
    the target, the [else] branch when the loop runs to its end. *)
Fixpoint filter_loop (manifests : list LayerResp) (target_platform : Platform)
    : result LayerResp :=
  match manifests with
  | [] => Raise (Exception (s "Not Found Matching image"))
  | manifest :: manifests' =>
      if bool_decide (platform manifest = Some target_platform) then Ok manifest
      else filter_loop manifests' target_platform
  end.

Definition filter (self : ManifestsListResp) (target_platform : Platform)
    : result Digest :=
  filter_loop (manifests self) target_platform >>= fun target_manifest =>
  Ok (digest target_manifest).

End utlis.

(** ** registry_client/reference.py *)
Module reference.
Import Py Re utlis.

Definition NameTotalLengthMax : nat := 255.

(** The pattern combinators.  The source builds pattern text; here they
    build the syntax tree that text denotes.  The anchors of [anchored]
    are carried by [Re.fullmatch] and [Re.findall], which match the whole
    text. *)
Fixpoint expression (res : list regex) : regex :=
  match res with
  | [] => Eps
  | [r] => r
  | r :: res' => Seq r (expression res')
  end.

Definition group (res : list regex) : regex := expression res.
Definition optional (res : list regex) : regex := Opt (group [expression res]).
Definition repeated (res : list regex) : regex := Plus (group [expression res]).
Definition capture (res : list regex) : regex := Cap (expression res).
Definition anchored (res : list regex) : regex := expression res.

(** [literal v]: [v] with its special characters escaped, that is the
    pattern matching the text [v]. *)
Definition literal (v : string) : regex :=
  expression ((fun c => Chr (Ascii.eqb c)) <$> list_ascii_of_string v).

(** The character classes of the patterns. *)
Definition lower_alnum (c : ascii) : bool := in_range "a" "z" c || in_range "0" "9" c.
Definition alnum (c : ascii) : bool :=
  in_range "a" "z" c || in_range "A" "Z" c || in_range "0" "9" c.
Definition alpha (c : ascii) : bool := in_range "a" "z" c || in_range "A" "Z" c.
Definition digit (c : ascii) : bool := in_range "0" "9" c.
Definition xdigit (c : ascii) : bool :=
  in_range "0" "9" c || in_range "A" "F" c || in_range "a" "f" c.
Definition lower_xdigit (c : ascii) : bool := in_range "a" "f" c || in_range "0" "9" c.
Definition word (c : ascii) : bool := alnum c || one_of "_" c.

(** [[a-z0-9]+] *)
Definition alpha_numeric : regex := Plus (Chr lower_alnum).
(** The separator: one of [._], or two underscores, or a run of
    hyphens that may be empty, in that order of preference. *)
Definition separator : regex :=
  Alt (Chr (one_of "._"))
    (Alt (Seq (Chr (one_of "_")) (Chr (one_of "_"))) (Star (Chr (one_of "-")))).
Definition name_component : regex :=
  expression [alpha_numeric; optional [repeated [separator; alpha_numeric]]].

(** A domain component: one letter or digit, or several with hyphens
    allowed inside; the one-character alternative comes first. *)
Definition domain_name_component : regex :=
  Alt (Chr alnum)
    (Seq (Chr alnum) (Seq (Star (Chr (fun c => alnum c || one_of "-" c))) (Chr alnum))).
(** An IPv6 literal: hexadecimal digits and colons between brackets. *)
Definition ipv6_address : regex :=
  Seq (Chr (one_of "["))
    (Seq (Plus (Chr (fun c => xdigit c || one_of ":" c))) (Chr (one_of "]"))).
Definition domain_name : regex :=
  expression [domain_name_component;
              optional [repeated [literal "."; domain_name_component]]].
Definition host : regex := Alt domain_name ipv6_address.
Definition domain : regex :=
  expression [host; optional [literal ":"; Plus (Chr digit)]].

(** [[\w][\w.-]{0,127}] *)
Definition tag : regex :=
  Seq (Chr word) (UpTo 127 (Chr (fun c => word c || one_of ".-" c))).

(** The digest: an algorithm, that is components of a letter followed by
    letters and digits, joined by one of [-_+.]; a colon; and at least 32
    hexadecimal digits. *)
Definition DIGEST_REGEXP : regex :=
  Seq (Chr alpha)
    (Seq (Star (Chr alnum))
       (Seq (Star (Seq (Chr (one_of "-_+.")) (Seq (Chr alpha) (Star (Chr alnum)))))
          (Seq (Chr (one_of ":")) (AtLeast 32 (Chr xdigit))))).

Definition name_pat : regex :=
  expression [optional [domain; literal "/"]; name_component;
              optional [repeated [literal "/"; name_component]]].
Definition anchored_name : regex :=
  anchored [optional [capture [domain]; literal "/"];
            capture [name_pat; optional [repeated [literal "/"; name_pat]]]].
Definition ANCHORED_NAME_REGEXP : regex := anchored_name.

Definition reference_pat : regex :=
  anchored [capture [name_pat]; optional [literal ":"; capture [tag]];
            optional [literal "@"; capture [DIGEST_REGEXP]]].
Definition REFERENCE_REGEXP : regex := reference_pat.

(** [([a-f0-9]{64})], which [parse_normalized_named] matches anchored. *)
Definition IDENTIFIER_REGEXP : regex := Cap (Exactly 64 (Chr lower_xdigit)).

(** The reference classes.  [DigestReference] does not call the dataclass
    constructor: its [domain] and [path] are the class defaults.  The
    fields of the other classes are as [parse] fills them. *)
Inductive Reference : Type :=
| NamedReference (domain path : str)
| TaggedReference (domain path tag : str)
| DigestReference (digest : Digest)
| CanonicalReference (domain path : str) (digest : Digest)
| FullReference (domain path tag : str) (digest : Digest).

Definition ref_domain (self : Reference) : str :=
  match self with
  | NamedReference d _ | TaggedReference d _ _
  | CanonicalReference d _ _ | FullReference d _ _ _ => d
  | DigestReference _ => s ""
  end.

Definition ref_path (self : Reference) : str :=
  match self with
  | NamedReference _ p | TaggedReference _ p _
  | CanonicalReference _ p _ | FullReference _ p _ _ => p
  | DigestReference _ => s ""
  end.

(** [Reference.name] *)
Definition Reference_name (self : Reference) : str :=
  if eqb (ref_domain self) (s "") then ref_path self
  else ref_domain self ++ s "/" ++ ref_path self.

(** [NamedReference.target] *)
Definition NamedReference_target : str := s "latest".

(** The [target] property, resolved along each class's bases:
    [FullReference(NamedReference)] defines none of its own and so takes
    [NamedReference.target]. *)
Definition target (self : Reference) : str :=
  match self with
  | NamedReference _ _ => NamedReference_target
  | TaggedReference _ _ tag => tag
  | DigestReference digest => value digest
  | CanonicalReference _ _ digest => value digest
  | FullReference _ _ _ _ => NamedReference_target
  end.

(** [__str__], resolved the same way: [NamedReference] takes
    [Reference.__str__]. *)
Definition to_str (self : Reference) : str :=
  match self with
  | NamedReference _ _ => Reference_name self
  | TaggedReference _ _ tag => Reference_name self ++ s ":" ++ tag
  | DigestReference digest => value digest
  | CanonicalReference _ _ digest => Reference_name self ++ s "@" ++ Digest_str digest
  | FullReference domain path tag digest =>
      let name := if eqb domain (s "") then path else domain ++ s "/" ++ path in
      name ++ s ":" ++ tag ++ s "@" ++ value digest
  end.

Definition split_docker_domain (name : str) : str * str :=
  let index := find "/" name in
  let '(domain, remainder) :=
    match index with
    | None => (DEFAULT_REGISTRY_HOST, name)
    | Some index =>
        if bool_decide (findall_class (one_of ".:") (take index name) = [])
           && negb (eqb (take index name) (s "localhost"))
        then (DEFAULT_REGISTRY_HOST, name)
        else (take index name, drop (index + 1) name)
    end in
  let domain :=
    if eqb domain (s "index.docker.io") then DEFAULT_REGISTRY_HOST else domain in
  let remainder :=
    if eqb domain DEFAULT_REGISTRY_HOST && negb (contains "/" remainder)
    then DEFAULT_REPO ++ s "/" ++ remainder
    else remainder in
  (domain, remainder).

(** [split_domain]: the two groups of the anchored name pattern; the first
    match of a text that has none is an [IndexError]. *)
Definition split_domain (name : str) : result (str * str) :=
  match findall ANCHORED_NAME_REGEXP name with
  | [] => Raise IndexError
  | match0 :: _ =>
      match match0 with
      | [domain; path] => Ok (domain, path)
      | _ => Ok (s "", name)
      end
  end.

Section with_digest.

(** [Digest.is_digest] of the absent registry_client/digest.py. *)
Variable is_digest : str -> bool.

Definition parse (name : str) : result Reference :=
  match findall REFERENCE_REGEXP name with
  | [] =>
      if eqb name (s "") then Raise ErrNameEmpty
      else if negb (islower name) then Raise ErrNameContainsUppercase
      else Raise ErrReferenceInvalidFormat
  | result :: _ =>
      let result0 := nth 0 result (s "") in
      let result1 := nth 1 result (s "") in
      let result2 := nth 2 result (s "") in
      if NameTotalLengthMax <? length result0 then Raise ErrNameTooLong
      else
        match findall ANCHORED_NAME_REGEXP result0 with
        | [] => Raise IndexError
        | name_match :: _ =>
            let '(domain, path) :=
              match name_match with
              | [domain; path] => (domain, path)
              | _ => (s "", last_of name_match)
              end in
            let repo := NamedReference domain path in
            let tag := if negb (eqb result1 (s "")) then result1 else s "" in
            (if negb (eqb result2 (s "")) then
               if negb (is_digest result2)
               then Raise (Exception (s "invalid digest format: " ++ result2))
               else Ok (Some {| value := result2 |})
             else Ok None) >>= fun digest =>
            if eqb (Reference_name repo) (s "") then
              match digest with
              | Some digest => Ok (DigestReference digest)
              | None => Raise ErrNameEmpty
              end
            else if eqb tag (s "") then
              match digest with
              | Some digest => Ok (CanonicalReference domain path digest)
              | None => Ok (NamedReference domain path)
              end
            else
              match digest with
              | None => Ok (TaggedReference domain path tag)
              | Some digest => Ok (FullReference domain path tag digest)
              end
        end
  end.

Definition parse_normalized_named (name : str) : result Reference :=
  if bool_decide (is_Some (fullmatch IDENTIFIER_REGEXP name)) then
    Raise (Exception (s "invalid repository name (" ++ name
                      ++ s "), cannot specify 64-byte hexadecimal strings"))
  else
    let '(domain, remainder) := split_docker_domain name in
    let remote_name :=
      if bool_decide (is_Some (find ":" remainder))
      then partition_head ":" remainder
      else remainder in
    if negb (islower remote_name) then
      Raise (Exception (s "invalid reference format: repository name must be lowercase"))
    else parse (domain ++ s "/" ++ remainder).

End with_digest.

End reference.

(** ** client.py

    The client talks to the registry and writes files.  The registry is a
    [world] of responses; the file system and the log are a [state] threaded
    through a state-and-exception monad.  Logging below [logger.catch] and
    the progress bar are left out. *)
Module client.
Import Py utlis.

(** JSON values, as far as the client writes them. *)
#[local] Unset Elimination Schemes.
Inductive json : Type :=
| JStr (v : str)
| JList (vs : list json)
| JDict (kvs : list (str * json)).
#[local] Set Elimination Schemes.

(** What a file holds. *)
Inductive content : Type :=
| Text (t : str)
| JsonDump (j : json)
| Bytes (b : str)
| Gunzipped (b : str)
| TarOf (dir : str).

Record state : Type := {
  dirs : gset (list ascii);
  files : gmap (list ascii) content;
  log : list exn
}.

Definition M (A : Type) : Type := state -> state * result A.

Definition ret {A} (a : A) : M A := fun st => (st, Ok a).
Definition raise {A} (e : exn) : M A := fun st => (st, Raise e).
Definition lift {A} (r : result A) : M A := fun st => (st, r).
Definition mbind {A B} (m : M A) (f : A -> M B) : M B :=
  fun st =>
    match m st with
    | (st', Ok a) => f a st'
    | (st', Raise e) => (st', Raise e)
    end.

Notation "'do' x <- m ; k" := (mbind m (fun x => k))
  (at level 10, x pattern, m at level 100, k at level 200).
Notation "m ;; k" := (mbind m (fun _ => k))
  (at level 100, k at level 200, right associativity).

(** [@logger.catch]: an exception of the call is logged and the call
    returns [None]. *)
Definition logger_catch {A} (m : M A) : M (option A) :=
  fun st =>
    match m st with
    | (st', Ok a) => (st', Ok (Some a))
    | (st', Raise e) =>
        ({| dirs := dirs st'; files := files st'; log := log st' ++ [e] |}, Ok None)
    end.

(** pathlib, with the paths of POSIX.  A path is kept as its text,
    [str(path)].

    [splitroot]: the root of a text and what follows it; the root is two
    slashes for exactly two leading slashes and one slash for any other
    number of them. *)
Definition splitroot (part : str) : str * str :=
  if startswith (s "/") part then
    let stripped_part := lstrip "/" part in
    if length part - length stripped_part =? 2 then (s "//", stripped_part)
    else (s "/", stripped_part)
  else (s "", part).

(** [parse_parts] of one text: its root and its components; an empty
    component and a dot are dropped, two dots are kept. *)
Definition parse_parts (part : str) : str * list str :=
  let '(root, rel) := splitroot part in
  (root,
   List.filter (fun x => negb (eqb x (s "")) && negb (eqb x (s "."))) (split "/" rel)).

(** The text of a path: the root and the components joined by slashes, a
    dot for the path without either. *)
Definition format_parsed_parts (root : str) (parts : list str) : str :=
  let text := root ++ join (s "/") parts in
  if eqb text (s "") then s "." else text.

(** [p.joinpath(q)]: a [q] with a root replaces the path; any other [q]
    adds its components to those of [p].  [p.joinpath(q, r)] is
    [p.joinpath(q).joinpath(r)]. *)
Definition joinpath (p q : str) : str :=
  let '(root, parts) := parse_parts p in
  let '(root2, parts2) := parse_parts q in
  if negb (eqb root2 (s "")) then format_parsed_parts root2 parts2
  else format_parsed_parts root (parts ++ parts2).

Definition is_dir (p : str) : M bool :=
  fun st => (st, Ok (bool_decide (p ∈ dirs st))).

(** The proper prefixes of the text [p] of a path that end before a
    slash, the root for the empty prefix: its parents. *)
Fixpoint parents (pre p : str) : list str :=
  match p with
  | [] => []
  | a :: p' =>
      (if Ascii.eqb a "/" then [if eqb pre (s "") then s "/" else pre] else [])
      ++ parents (pre ++ [a]) p'
  end.

(** [p.mkdir(parents=True, exist_ok=True)] *)
Definition mkdir_parents (p : str) : M unit :=
  fun st =>
    ({| dirs := dirs st ∪ list_to_set (parents [] p) ∪ {[ p ]};
        files := files st; log := log st |}, Ok tt).

(** Writing [c] to [dir.joinpath(name)] for a file name [name]; the
    directory [dir] must exist. *)
Definition write_file (dir name : str) (c : content) : M unit :=
  fun st =>
    if bool_decide (dir ∈ dirs st) then
      ({| dirs := dirs st; files := <[joinpath dir name := c]> (files st);
          log := log st |}, Ok tt)
    else (st, Raise (FileNotFoundError (joinpath dir name))).

(** [open(path, "w")]: the file is created empty, or emptied. *)
Definition open_w (dir name : str) : M unit := write_file dir name (Text (s "")).

(** [path.unlink()] *)
Definition unlink (path : str) : M unit :=
  fun st =>
    match files st !! path with
    | Some _ =>
        ({| dirs := dirs st; files := delete path (files st); log := log st |}, Ok tt)
    | None => (st, Raise (FileNotFoundError path))
    end.

(** Modelled from the spec: decompress.py is not among the sources.
    [GZipDeCompress(src, dst).do()] decompresses the archive [src] into the
    directory [dst], as its file [layer.tar]. *)
Definition GZipDeCompress_do (src dst : str) : M unit :=
  fun st =>
    match files st !! src with
    | Some (Bytes b) =>
        ({| dirs := dirs st ∪ {[ dst ]};
            files := <[joinpath dst (s "layer.tar") := Gunzipped b]> (files st);
            log := log st |}, Ok tt)
    | _ => (st, Raise (FileNotFoundError src))
    end.

(** Modelled from the spec: decompress.py is not among the sources.
    [TarImageDir(src, dst).do()] archives the directory [src] into the one
    file [dst]. *)
Definition TarImageDir_do (src dst : str) : M unit :=
  fun st =>
    if bool_decide (src ∈ dirs st) then
      ({| dirs := dirs st; files := <[dst := TarOf src]> (files st);
          log := log st |}, Ok tt)
    else (st, Raise (FileNotFoundError src)).

Record request : Type := {
  method : str;
  url : str;
  req_headers : gmap (list ascii) (list ascii)
}.

Record response : Type := {
  status_code : nat;
  resp_headers : gmap (list ascii) (list ascii);
  resp_content : str
}.

(** The registry and the libraries: the response to a request, the token
    the realm hands out to the Bearer handler, whether the realm of a
    challenge is on [docker.io], the base64 text of a text, the manifest a
    response body decodes to, and the JSON value of a body. *)
Record world : Type := {
  http : request -> response;
  bearer_token : PingResp -> option str -> option str -> ScopeType -> result str;
  is_official : PingResp -> bool;
  b64encode : str -> str;
  manifest_of : str -> result ManifestsResp;
  json_loads : str -> result json
}.

Record ImageClient : Type := {
  _host : str;
  _username : option str;
  _password : option str;
  _schema : str;
  _base_url : str;
  _ping_resp : option PingResp;
  _pinged : bool;
  _default_headers : gmap (list ascii) (list ascii)
}.

(** [ImageClient.__init__] *)
Definition ImageClient_init (host : str) (username password : option str)
    (scheme : str) : ImageClient :=
  {| _host := host; _username := username; _password := password;
     _schema := scheme; _base_url := scheme ++ s "://" ++ host;
     _ping_resp := None; _pinged := false; _default_headers := ∅ |}.

(** The text of a value that may be [None], as an f-string prints it. *)
Definition fmt_opt (v : option str) : str := default (s "None") v.

(** [str(n)] of an index. *)
Definition str_of_nat (n : nat) : str :=
  list_ascii_of_string (NilEmpty.string_of_uint (Nat.to_uint n)).

(** The white space that [int] skips at both ends: the space and the
    characters from the tabulator to the carriage return. *)
Definition int_space (c : ascii) : bool :=
  (9 <=? code c) && (code c <=? 13) || (code c =? 32).

Fixpoint lstrip_space (x : str) : str :=
  match x with
  | a :: x' => if int_space a then lstrip_space x' else x
  | [] => []
  end.

(** Decimal digits, with single underscores between them. *)
Fixpoint digits (after_digit : bool) (x : str) : bool :=
  match x with
  | [] => after_digit
  | a :: x' =>
      if in_range "0" "9" a then digits true x'
      else if Ascii.eqb a "_" then after_digit && digits false x'
      else false
  end.

(** [int(v)] of a header value, as far as it raises: [TypeError] for
    [None]; for a text, white space at both ends is skipped, a sign may come
    first, and what remains must be decimal digits, [ValueError] if not
    (the interpreter's bound on the number of digits is left out).  The
    number itself only feeds the progress bar. *)
Definition int_of (v : option str) : result unit :=
  match v with
  | None => Raise TypeError
  | Some v =>
      let v := rev (lstrip_space (rev (lstrip_space v))) in
      let v :=
        match v with
        | a :: v' => if one_of "+-" a then v' else v
        | [] => []
        end in
      if digits false v then Ok tt else Raise ValueError
  end.

Section with_world.

Variable w : world.

(** The module global [repo]: bound by the script's [__main__] block
    only, [None] when the module is imported. *)
Variable repo : option str.

Definition ping (self : ImageClient) : result (option PingResp) :=
  let resp := http w {| method := s "GET"; url := _base_url self ++ s "/v2/";
                        req_headers := ∅ |} in
  let auth_header := resp_headers resp !! s "WWW-Authenticate" in
  match auth_header with
  | None => Ok None
  | Some auth_header => PingResp_init auth_header >>= fun p => Ok (Some p)
  end.

(** [get_auth_header] of the two handler classes. *)
Definition get_auth_header (self : ChallengeHandler)
    : result (gmap (list ascii) (list ascii)) :=
  match cls self with
  | BearerChallengeHandler =>
      bearer_token w (ping_resp self) (username self) (password self) (scope self)
      >>= fun registry_token =>
      Ok {[ s "Authorization" := s "Bearer " ++ registry_token ]}
  | BasicChallengeHandler =>
      if is_official w (ping_resp self) then Ok ∅
      else
        let base_str := fmt_opt (username self) ++ s ":" ++ fmt_opt (password self) in
        Ok {[ s "Authorization" := s "Basic " ++ b64encode w base_str ]}
  end.

Definition _handle_challenges (self : ImageClient) (challenge : PingResp)
    (scope : ScopeType) : result (gmap (list ascii) (list ascii)) :=
  let scheme_dict := [(Bearer, BearerChallengeHandler)] in
  let handler := dict_get scheme_dict (scheme challenge) in
  match handler with
  | None => Ok ∅
  | Some handler =>
      ChallengeHandler_positional handler challenge (_username self) (_password self) scope
      >>= get_auth_header
  end.

Definition auth_header (self : ImageClient) (scope : ScopeType)
    : result (gmap (list ascii) (list ascii)) :=
  (if _pinged self then Ok (_ping_resp self) else ping self) >>= fun ping_resp =>
  match ping_resp with
  | None => Ok ∅
  | Some ping_resp => _handle_challenges self ping_resp scope
  end.



Definition _image_manifest (self : ImageClient) (method image_path : str)
    (reference : option str) (auth_info : gmap (list ascii) (list ascii)) : response :=
  let suffix := s "/v2/" ++ image_path ++ s "/manifests/" ++ fmt_opt reference in
  http w {| method := method; url := _base_url self ++ suffix;
            req_headers := auth_info |}.

Definition _resp_sha256 (resp : response) : str :=
  hashlib.sha256_hexdigest (resp_content resp).

Definition fetch_image_manifest (self : ImageClient) (image_path : str)
    (reference : option str) (auth_info : gmap (list ascii) (list ascii))
    : M (option response) :=
  logger_catch (
    let resp := _image_manifest self (s "GET") image_path reference auth_info in
    match reference with
    | None => raise AttributeError
    | Some reference =>
        if startswith (s "sha256:") reference then
          let resp_sha256 := _resp_sha256 resp in
          if eqb (drop 7 reference) resp_sha256 then ret resp
          else raise AssertionError
        else ret resp
    end).

Definition image_manifest_existed (self : ImageClient) (image_path : str)
    (reference : option str) (auth_info : gmap (list ascii) (list ascii)) : response :=
  _image_manifest self (s "HEAD") image_path reference auth_info.

Definition _pull_schema2_config (self : ImageClient) (url_base : str)
    (digest : Digest) (headers : gmap (list ascii) (list ascii)) : response :=
  let url := _base_url self ++ s "/v2/" ++ url_base ++ s "/blobs/" ++ Digest_str digest in
  http w {| method := s "GET"; url := url; req_headers := headers |}.

Definition _download_and_decompress_layer (self : ImageClient) (base_url : str)
    (digest : Digest) (save_dir : str) (headers : gmap (list ascii) (list ascii))
    (index : nat) : M (option str) :=
  logger_catch (
    let url := _base_url self ++ s "/v2/" ++ base_url ++ s "/blobs/" ++ Digest_str digest in
    let tmp_name := s "layer_" ++ str_of_nat index ++ s ".tar.gz" in
    let tmp_file := joinpath save_dir tmp_name in
    let resp := http w {| method := s "GET"; url := url; req_headers := headers |} in
    open_w save_dir tmp_name ;;
    lift (int_of (resp_headers resp !! s "content-length")) ;;
    write_file save_dir tmp_name (Bytes (resp_content resp)) ;;
    (if eqb (hashlib.sha256_hexdigest (resp_content resp)) (drop 7 (value digest))
     then ret tt else raise AssertionError) ;;
    GZipDeCompress_do tmp_file (joinpath save_dir (drop 7 (value digest))) ;;
    unlink tmp_file ;;
    ret (joinpath (joinpath save_dir (drop 7 (value digest))) (s "layer.tar"))).

(** The jobs of the executor.  Leaving the [with] block waits for all of
    them; each writes its own temporary file and its own directory, and
    their effects are taken in the order of submission. *)
Fixpoint run_jobs {A} (jobs : list (M A)) : M (list A) :=
  match jobs with
  | [] => ret []
  | job :: jobs' =>
      do a <- job; do rest <- run_jobs jobs'; ret (a :: rest)
  end.

(** The global name [repo], [NameError] when it is not bound. *)
Definition global_repo : M str :=
  match repo with
  | Some repo => ret repo
  | None => raise (NameError (s "repo"))
  end.

(** [pull_image]; [save_dir] is the absolute path that the first line
    makes of the argument.  The scope is asked for with two arguments by
    position. *)
Definition pull_image (self : ImageClient) (image_name repo_name reference : str)
    (save_dir : str) : M (option unit) :=
  logger_catch (
    do save_dir_is_dir <- is_dir save_dir;
    if negb save_dir_is_dir
    then raise (Exception (s "save dir " ++ save_dir ++ s " not exists"))
    else
    let image_name_with_repo := repo_name ++ s "/" ++ image_name in
    do scope <- lift (RepositoryScope_positional image_name_with_repo [s "pull"]);
    do headers <- lift (auth_header self (Repository scope));
    let headers :=
      <[s "Accept" := s "application/vnd.docker.distribution.manifest.v2+json"]> headers in
    let headers := _default_headers self ∪ headers in
    let head_resp :=
      image_manifest_existed self image_name_with_repo (Some reference) headers in
    if negb (status_code head_resp =? 200)
    then raise (Exception (image_name_with_repo ++ s ":" ++ reference ++ s " not found"))
    else
    let main_manifest := resp_headers head_resp !! s "Docker-Content-Digest" in
    do manifest_resp <-
      fetch_image_manifest self image_name_with_repo main_manifest headers;
    do manifest_resp <-
      match manifest_resp with
      | Some r => ret r
      | None => raise AttributeError
      end;
    do manifest <- lift (manifest_of w (resp_content manifest_resp));
    let image_config :=
      _pull_schema2_config self image_name_with_repo (digest (config manifest)) headers in
    let image_save_dir := joinpath (joinpath save_dir image_name_with_repo) reference in
    mkdir_parents image_save_dir ;;
    let config_digest := _resp_sha256 image_config in
    open_w image_save_dir (config_digest ++ s ".json") ;;
    do config_json <- lift (json_loads w (resp_content image_config));
    write_file image_save_dir (config_digest ++ s ".json") (JsonDump config_json) ;;
    write_file image_save_dir (s "VERSION") (Text (s "1.0")) ;;
    let digests := digest <$> layers manifest in
    run_jobs
      (imap (fun index digest =>
               _download_and_decompress_layer self image_name_with_repo digest
                 image_save_dir headers index) digests) ;;
    open_w image_save_dir (s "manifest.json") ;;
    do default_target <-
      (if eqb (_host self) DEFAULT_REGISTRY_HOST
       then do repo <- global_repo; ret (eqb repo DEFAULT_REPO)
       else ret false);
    let repo_tags :=
      if default_target : bool then [image_name ++ s ":" ++ reference]
      else [_host self ++ s "/" ++ repo_name ++ s "/" ++ image_name ++ s ":" ++ reference] in
    let data :=
      JDict [(s "Config", JStr (config_digest ++ s ".json"));
             (s "RepoTags", JList (JStr <$> repo_tags));
             (s "Layers",
              JList ((fun digest => JStr (drop 7 (value digest) ++ s "/layer.tar"))
                       <$> digests))] in
    write_file image_save_dir (s "manifest.json") (JsonDump (JList [data])) ;;
    do last_digest <-
      match last digests with
      | Some d => ret d
      | None => raise IndexError
      end;
    open_w (joinpath image_save_dir (drop 7 (value last_digest))) (s "json") ;;
    do config_json <- lift (json_loads w (resp_content image_config));
    write_file (joinpath image_save_dir (drop 7 (value last_digest))) (s "json")
      (JsonDump config_json) ;;
    TarImageDir_do image_save_dir
      (joinpath save_dir (repo_name ++ s "_" ++ image_name ++ s ".tar")) ;;
    raise (NameError (s "shutil"))).

End with_world.

End client.

(** ** Notions the properties are stated with *)
Module Props.
Import Py Re utlis reference.

(** A separator and a part, when the part is there. *)
Definition opt_part (sep : ascii) (o : option (list ascii)) : list ascii :=
  match o with
  | Some v => sep :: v
  | None => []
  end.

(** A syntactically valid reference text: it matches the reference
    grammar from start to end, its name is at most [NameTotalLengthMax]
    characters long, and its digest part, when there is one, is accepted by
    [Digest.is_digest]. *)
Definition syntactically_valid (is_digest : list ascii -> bool) (x : list ascii) : Prop :=
  exists c,
    fullmatch REFERENCE_REGEXP x = Some c /\
    length (nth 0 (groups c) []) <= NameTotalLengthMax /\
    (nth 2 (groups c) [] <> [] -> is_digest (nth 2 (groups c) []) = true).

(** The repository path [parse_normalized_named] checks: the remainder that
    [split_docker_domain] leaves, up to its first colon. *)
Definition remote_name (name : list ascii) : list ascii :=
  partition_head ":" (snd (split_docker_domain name)).

(** A text of exactly 64 lowercase hexadecimal characters. *)
Definition is_hex64 (name : list ascii) : Prop :=
  length name = 64 /\ forallb lower_xdigit name = true.

Definition has_dot_or_colon (x : list ascii) : Prop :=
  exists c, c ∈ x /\ (c = "."%char \/ c = ":"%char).

(** The names that [split_docker_domain] treats as a path under the default
    host: no slash at all, or a prefix before the first slash that has
    neither a dot nor a colon and is not [localhost]. *)
Definition under_default_host (name : list ascii) : Prop :=
  match find "/" name with
  | None => True
  | Some index =>
      ~ has_dot_or_colon (take index name) /\ take index name <> s "localhost"
  end.

(** The chain ID that follows [prev] for the diff ID [diff_id]: [sha256:] and
    the hexadecimal SHA-256 digest of [prev], a space and [diff_id]. *)
Definition chain_step (prev diff_id : list ascii) : list ascii :=
  s "sha256:" ++ hashlib.sha256_hexdigest (prev ++ s " " ++ diff_id).

(** The chain IDs that [get_chain_id] yields after [prev], one per diff ID. *)
Fixpoint chain (prev : list ascii) (rest : list (list ascii)) : list (list ascii) :=
  match rest with
  | [] => []
  | d :: rest' =>
      let v := get_chain_id prev [d] in
      v :: chain v rest'
  end.

(** The tag and the digest of a reference, when it has one. *)
Definition ref_tag (r : Reference) : option (list ascii) :=
  match r with
  | TaggedReference _ _ tag | FullReference _ _ tag _ => Some tag
  | _ => None
  end.

Definition ref_digest (r : Reference) : option Digest :=
  match r with
  | DigestReference d | CanonicalReference _ _ d | FullReference _ _ _ d => Some d
  | _ => None
  end.

(** The characters a tag is made of: letters, digits, underscore, dot and
    hyphen. *)
Definition tag_char (c : ascii) : bool := word c || one_of ".-" c.

(** The characters a name is made of. *)
Definition name_char (c : ascii) : bool :=
  alnum c || one_of "._-:[]/" c.

(** All 256 characters. *)
Definition all_chars : list ascii := ascii_of_nat <$> seq 0 256.

(** Every character class of the pattern [r] lies within [q]. *)
Fixpoint classes_within (q : ascii -> bool) (r : regex) : bool :=
  match r with
  | Eps => true
  | Chr p => forallb (fun a => implb (p a) (q a)) all_chars
  | Seq r1 r2 | Alt r1 r2 => classes_within q r1 && classes_within q r2
  | Star r1 | Cap r1 => classes_within q r1
  end.

(** The number of occurrences of [c] in [x]. *)
Definition count (c : ascii) (x : list ascii) : nat :=
  length (List.filter (Ascii.eqb c) x).

(** The characters of the algorithm of a digest. *)
Definition algorithm_char (c : ascii) : bool := alnum c || one_of "-_+." c.

(** The value of a member of [ChallengeScheme]. *)
Definition scheme_value (c : ChallengeScheme) : list ascii :=
  match c with
  | Bearer => s "Bearer"
  | Basic => s "Basic"
  end.

(** A text that neither starts nor ends with a double quote. *)
Definition bare (x : list ascii) : Prop :=
  head x <> Some dquote /\ last x <> Some dquote.

(** A text between double quotes. *)
Definition in_quotes (v : list ascii) : list ascii := dquote :: v ++ [dquote].

(** A challenge as registries send it: the scheme, a space, and the realm
    and the service between double quotes. *)
Definition challenge_text (c : ChallengeScheme) (realm service : list ascii) : list ascii :=
  scheme_value c ++ s " realm=" ++ in_quotes realm ++ s ",service=" ++ in_quotes service.

(** A text without a space, a comma, an equals sign or a double quote. *)
Definition plain (x : list ascii) : bool :=
  forallb (fun c => negb (one_of " ,=" c || Ascii.eqb c dquote)) x.

Import client.

(** The files and the blob of a layer job: its temporary file, the
    directory and the file it decompresses to, and the response to its
    request. *)
Definition layer_tmp_file (save_dir : list ascii) (index : nat) : list ascii :=
  joinpath save_dir (s "layer_" ++ str_of_nat index ++ s ".tar.gz").
Definition layer_dir (save_dir : list ascii) (digest : Digest) : list ascii :=
  joinpath save_dir (drop 7 (value digest)).
Definition layer_tar (save_dir : list ascii) (digest : Digest) : list ascii :=
  joinpath (layer_dir save_dir digest) (s "layer.tar").
Definition layer_blob (w : world) (self : ImageClient) (base_url : list ascii)
    (digest : Digest) (headers : gmap (list ascii) (list ascii)) : response :=
  http w {| method := s "GET";
            url := _base_url self ++ s "/v2/" ++ base_url ++ s "/blobs/" ++ Digest_str digest;
            req_headers := headers |}.


End Props.

(** ** Concrete registries and pulls *)
Module Scenarios.
Import Py utlis client.

(** A registry that answers each of the listed URLs with its response and
    every other URL with 404. *)
Definition serve (routes : list (list ascii * response)) (r : request) : response :=
  default {| status_code := 404; resp_headers := ∅; resp_content := s "" |}
          (dict_get routes (url r)).

Definition quoted (v : list ascii) : list ascii := [dquote] ++ v ++ [dquote].

(** A challenge with the scheme [Digest], and one with the scheme [Basic]. *)
Definition digest_challenge : list ascii :=
  s "Digest realm=" ++ quoted (s "registry") ++ s ",service=" ++ quoted (s "a.com").
Definition basic_challenge : list ascii :=
  s "Basic realm=" ++ quoted (s "registry") ++ s ",service=" ++ quoted (s "a.com").

Definition challenging (challenge : list ascii) : world :=
  {| http := serve [(s "https://a.com/v2/",
                     {| status_code := 401;
                        resp_headers := {[ s "WWW-Authenticate" := challenge ]};
                        resp_content := s "" |})];
     bearer_token := fun _ _ _ _ => Ok (s "token");
     is_official := fun _ => false;
     b64encode := fun v => v;
     manifest_of := fun _ => Raise ValueError;
     json_loads := fun _ => Raise ValueError |}.

Definition a_com : ImageClient := ImageClient_init (s "a.com") None None (s "https").

Definition pull_scope : ScopeType :=
  Repository {| repo_name := s "lib/foo"; actions := [s "pull"]; class_name := s "" |}.

(** An image of two layers and a configuration. *)
Definition layer0 : list ascii := s "layer zero".
Definition layer1 : list ascii := s "layer one".
Definition image_config : list ascii := s "{}".
Definition manifest_body : list ascii := s "manifest".

Definition digest_of (blob : list ascii) : Digest :=
  {| value := s "sha256:" ++ hashlib.sha256_hexdigest blob |}.

Definition descriptor (d : Digest) : LayerResp :=
  {| mediaType := s "application/octet-stream"; size := 0; digest := d; platform := None |}.

Definition manifest : ManifestsResp :=
  {| schemaVersion := 2;
     m_mediaType := s "application/vnd.docker.distribution.manifest.v2+json";
     config := descriptor (digest_of image_config);
     layers := [descriptor (digest_of layer0); descriptor (digest_of layer1)] |}.

Definition ok (body : list ascii) : response :=
  {| status_code := 200;
     resp_headers := {[ s "content-length" := str_of_nat (length body);
                        s "Docker-Content-Digest" := value (digest_of manifest_body) ]};
     resp_content := body |}.

(** The registry at [base] serving the image [repo/foo:latest]; it serves
    [served0] as the blob of the first layer. *)
Definition registry (base : list ascii) (served0 : list ascii) : world :=
  {| http :=
       serve [(base ++ s "/manifests/latest", ok (s ""));
              (base ++ s "/manifests/" ++ value (digest_of manifest_body), ok manifest_body);
              (base ++ s "/blobs/" ++ value (digest_of image_config), ok image_config);
              (base ++ s "/blobs/" ++ value (digest_of layer0), ok served0);
              (base ++ s "/blobs/" ++ value (digest_of layer1), ok layer1)];
     bearer_token := fun _ _ _ _ => Raise ValueError;
     is_official := fun _ => false;
     b64encode := fun v => v;
     manifest_of := fun _ => Ok manifest;
     json_loads := fun _ => Ok (JDict []) |}.

(** A file system with the one directory [/out], and an empty log. *)
Definition out_dir : state := {| dirs := {[ s "/out" ]}; files := ∅; log := [] |}.

(** A manifest list for linux/amd64 and linux/arm64. *)
Definition linux (architecture : list ascii) : Platform :=
  {| os := s "linux"; architecture := architecture; variant := None |}.
Definition windows_amd64 : Platform :=
  {| os := s "windows"; architecture := s "amd64"; variant := None |}.
Definition entry (blob : list ascii) (p : Platform) : LayerResp :=
  {| mediaType := s "application/vnd.docker.distribution.manifest.v2+json";
     size := 0; digest := digest_of blob; platform := Some p |}.
Definition amd64_entry : LayerResp := entry (s "amd64 manifest") (linux (s "amd64")).
Definition arm64_entry : LayerResp := entry (s "arm64 manifest") (linux (s "arm64")).
Definition manifest_list : ManifestsListResp :=
  {| manifests := [amd64_entry; arm64_entry];
     l_mediaType := s "application/vnd.docker.distribution.manifest.list.v2+json";
     l_schemaVersion := s "2" |}.

End Scenarios.

(** * Properties *)

(** ** hashlib against the test vectors of FIPS 180-4 *)
Section sha256_vectors.
Import Py.

Lemma sha256_empty :
  hashlib.sha256_hexdigest (s "")
  = s "e3b0c44298fc1c149afbf4c8996fb92427ae41e4649b934ca495991b7852b855".
Proof. vm_compute. reflexivity. Qed.

Lemma sha256_abc :
  hashlib.sha256_hexdigest (s "abc")
  = s "ba7816bf8f01cfea414140de5dae2223b00361a396177a9cb410ff61f20015ad".
Proof. vm_compute. reflexivity. Qed.

Lemma sha256_two_blocks :
  hashlib.sha256_hexdigest (s "abcdbcdecdefdefgefghfghighijhijkijkljklmklmnlmnomnopnopq")
  = s "248d6a61d20638b8e5c026930c3e6039a33ce45964ff2167f6ecedd419db06c1".
Proof. vm_compute. reflexivity. Qed.

End sha256_vectors.

(** ** The matcher against the declarative reading of the patterns *)
Section matcher.
Import Re.

Lemma star_loop_sound step r i k :
  (forall x c k res, step x c k = Some res ->
     exists w x' c', x = w ++ x' /\ matches r i w c c' /\ k x' c' = Some res) ->
  forall n x c res, star_loop step k n x c = Some res ->
    exists w x' c', x = w ++ x' /\ matches (Star r) i w c c' /\ k x' c' = Some res.
Proof.
  intros Hstep n. induction n as [|n IHn]; intros x c res H; simpl in H.
  - exists [], x, c. split; [done|]. split; [constructor|done].
  - match type of H with
    | match ?e with _ => _ end = _ => destruct e eqn:E1
    end.
    + injection H as ->. apply Hstep in E1 as (w1 & x1 & c1 & -> & M1 & Hk).
      destruct (length x1 <? length (w1 ++ x1)); [|done].
      apply IHn in Hk as (w2 & x2 & c2 & -> & M2 & Hk).
      exists (w1 ++ w2), x2, c2. split; [by rewrite app_assoc|].
      split; [by econstructor|done].
    + exists [], x, c. split; [done|]. split; [constructor|done].
Qed.

(** Soundness: a success of [exec] is a match of a prefix, with the groups
    it took, followed by a success of the continuation. *)
Lemma exec_sound r : forall i x c k res,
  exec r i x c k = Some res ->
  exists w x' c', x = w ++ x' /\ matches r i w c c' /\ k x' c' = Some res.
Proof.
  induction r as [|p|r1 IH1 r2 IH2|r1 IH1 r2 IH2|r1 IH1|r1 IH1];
    intros i x c k res H; simpl in H.
  - exists [], x, c. split; [done|]. split; [constructor|done].
  - destruct x as [|a x']; [done|]. destruct (p a) eqn:Hp; [|done].
    exists [a], x', c. split; [done|]. split; [by constructor|done].
  - apply IH1 in H as (w1 & x1 & c1 & -> & M1 & H).
    apply IH2 in H as (w2 & x2 & c2 & -> & M2 & H).
    exists (w1 ++ w2), x2, c2. split; [by rewrite app_assoc|].
    split; [by econstructor|done].
  - destruct (exec r1 i x c k) eqn:E1.
    + injection H as ->. apply IH1 in E1 as (w & x' & c' & -> & M & Hk).
      exists w, x', c'. split; [done|]. split; [by apply MAltL|done].
    + apply IH2 in H as (w & x' & c' & -> & M & Hk).
      exists w, x', c'. split; [done|]. split; [by apply MAltR|done].
  - eapply star_loop_sound; [|exact H]. intros; by apply IH1.
  - apply IH1 in H as (w & x' & c' & -> & M & Hk).
    rewrite length_app in Hk.
    replace (length w + length x' - length x') with (length w) in Hk by lia.
    rewrite take_app_length in Hk.
    exists w, x', (<[i := Some w]> c'). split; [done|].
    split; [by constructor|done].
Qed.

Lemma fullmatch_sound r x c :
  fullmatch r x = Some c -> matches r 0 x (replicate (ngroups r) None) c.
Proof.
  unfold fullmatch. intros H.
  apply exec_sound in H as (w & x' & c' & -> & M & Hk).
  destruct x' as [|a x']; [|done]. injection Hk as ->.
  by rewrite app_nil_r.
Qed.

Lemma matches_lang r i w c c' : matches r i w c c' -> lang r w.
Proof.
  induction 1;
    eauto using LEps, LChr, LSeq, LAltL, LAltR, LStar0, LStarS, LCap.
Qed.

Lemma matches_length r i w c c' : matches r i w c c' -> length c' = length c.
Proof.
  induction 1; try done; try congruence.
  by rewrite length_insert.
Qed.

(** A pattern without groups leaves the groups as they are. *)
Lemma matches_nocap r i w c c' :
  matches r i w c c' -> ngroups r = 0 -> c' = c.
Proof.
  induction 1; simpl; intros Hn; try done.
  - rewrite IHmatches2, IHmatches1; [done|lia|lia].
  - apply IHmatches; lia.
  - apply IHmatches; lia.
  - rewrite IHmatches2 by done. by apply IHmatches1.
Qed.

Lemma lang_nullable r w : lang r w -> w = [] -> nullable r = true.
Proof.
  induction 1; simpl; intros Hw; try done.
  - apply app_eq_nil in Hw as [-> ->]. by rewrite IHlang1, IHlang2.
  - by rewrite IHlang.
  - rewrite IHlang; [|done]. by destruct (nullable r1).
  - by apply IHlang.
Qed.

Lemma lang_nonempty r w : lang r w -> nullable r = false -> w <> [].
Proof.
  intros H Hn ->. apply lang_nullable in H; [congruence|done].
Qed.

(** Completeness: when a prefix is in the language of the pattern and the
    continuation accepts the rest, [exec] succeeds. *)
Lemma exec_complete r w :
  lang r w ->
  (forall i x' c k, accepts k x' -> is_Some (exec r i (w ++ x') c k)) /\
  match r with
  | Star r1 =>
      forall i x' c k n, accepts k x' -> length (w ++ x') <= n ->
        is_Some (star_loop (exec r1 i) k n (w ++ x') c)
  | _ => True
  end.
Proof.
  induction 1 as [|p a Hp|r1 r2 w1 w2 _ [IH1 _] _ [IH2 _]|r1 r2 w _ [IH1 _]
                 |r1 r2 w _ [IH2 _]|r1|r1 w1 w2 _ [IH1 _] _ [IH2 IH2']
                 |r1 w _ [IH1 _]].
  - split; [|done]. intros i x' c k Hk. apply Hk.
  - split; [|done]. intros i x' c k Hk. simpl. rewrite Hp. apply Hk.
  - split; [|done]. intros i x' c k Hk. simpl. rewrite <- app_assoc.
    apply IH1. intros c'. by apply IH2.
  - split; [|done]. intros i x' c k Hk. simpl.
    destruct (IH1 i x' c k Hk) as [res ->]. by eexists.
  - split; [|done]. intros i x' c k Hk. simpl.
    destruct (exec r1 i (w ++ x') c k); [by eexists|]. by apply IH2.
  - assert (Hloop : forall i x' c k n, accepts k x' ->
              is_Some (star_loop (exec r1 i) k n ([] ++ x') c)).
    { intros i x' c k n Hk. destruct n as [|n]; simpl; [apply Hk|].
      match goal with |- is_Some (match ?e with _ => _ end) => destruct e end;
        [by eexists|apply Hk]. }
    split; [|intros; by apply Hloop].
    intros i x' c k Hk. simpl. by apply Hloop.
  - assert (Hloop : forall i x' c k n, accepts k x' ->
              length ((w1 ++ w2) ++ x') <= n ->
              is_Some (star_loop (exec r1 i) k n ((w1 ++ w2) ++ x') c)).
    { intros i x' c k n Hk Hn.
      destruct w1 as [|a w1]; [by apply IH2'|].
      destruct n as [|n]; [simpl in Hn; lia|].
      cbn [star_loop].
      match goal with |- is_Some (match ?e with _ => _ end) => assert (is_Some e) as [res ->] end;
        [|by eexists].
      rewrite <- app_assoc. apply IH1. intros c'.
      rewrite !length_app in *. simpl in *.
      destruct (Nat.ltb_spec (length w2 + length x') (S (length w1 + (length w2 + length x'))));
        [|lia].
      apply IH2'; [done|]. rewrite length_app. lia. }
    split; [|exact Hloop].
    intros i x' c k Hk. simpl. by apply Hloop.
  - split; [|done]. intros i x' c k Hk. simpl.
    apply IH1. intros c'. apply Hk.
Qed.

Lemma fullmatch_complete r w : lang r w -> is_Some (fullmatch r w).
Proof.
  intros H. unfold fullmatch.
  destruct (exec_complete r w H) as [Hc _].
  specialize (Hc 0 [] (replicate (ngroups r) None) at_end).
  rewrite app_nil_r in Hc. apply Hc. intros c. by eexists.
Qed.

End matcher.

(** ** The shape of a match of the reference patterns *)
Section reference_shape.
Import Py Re utlis reference Props.

Lemma matches_Eps_inv i w c c' : matches Eps i w c c' -> w = [] /\ c' = c.
Proof. by inversion 1. Qed.

Lemma matches_Chr_inv p i w c c' :
  matches (Chr p) i w c c' -> exists a, w = [a] /\ p a = true /\ c' = c.
Proof. inversion 1; subst. by eexists. Qed.

Lemma matches_Seq_inv r1 r2 i w c c'' :
  matches (Seq r1 r2) i w c c'' ->
  exists w1 w2 c', w = w1 ++ w2 /\ matches r1 i w1 c c' /\
                   matches r2 (i + ngroups r1) w2 c' c''.
Proof. inversion 1; subst. by eexists _, _, _. Qed.

Lemma matches_Alt_inv r1 r2 i w c c' :
  matches (Alt r1 r2) i w c c' ->
  matches r1 i w c c' \/ matches r2 (i + ngroups r1) w c c'.
Proof. inversion 1; subst; auto. Qed.

Lemma matches_Cap_inv r i w c c' :
  matches (Cap r) i w c c' ->
  exists c1, matches r (S i) w c c1 /\ c' = <[i := Some w]> c1.
Proof. inversion 1; subst. by eexists. Qed.

Lemma reference_pat_shape :
  REFERENCE_REGEXP =
  Seq (Cap name_pat)
    (Seq (Alt (Seq (Chr (Ascii.eqb ":")) (Cap tag)) Eps)
         (Alt (Seq (Chr (Ascii.eqb "@")) (Cap DIGEST_REGEXP)) Eps)).
Proof. reflexivity. Qed.

Lemma anchored_name_shape :
  ANCHORED_NAME_REGEXP =
  Seq (Alt (Seq (Cap domain) (Chr (Ascii.eqb "/"))) Eps)
    (Cap (Seq name_pat (optional [repeated [literal "/"; name_pat]]))).
Proof. reflexivity. Qed.

Lemma ngroups_name_pat : ngroups name_pat = 0.
Proof. reflexivity. Qed.
Lemma ngroups_tag : ngroups tag = 0.
Proof. reflexivity. Qed.
Lemma ngroups_digest : ngroups DIGEST_REGEXP = 0.
Proof. reflexivity. Qed.
Lemma ngroups_domain : ngroups domain = 0.
Proof. reflexivity. Qed.
Lemma ngroups_reference : ngroups REFERENCE_REGEXP = 3.
Proof. reflexivity. Qed.
Lemma ngroups_anchored_name : ngroups ANCHORED_NAME_REGEXP = 2.
Proof. reflexivity. Qed.

Lemma nullable_name_pat : nullable name_pat = false.
Proof. reflexivity. Qed.
Lemma nullable_tag : nullable tag = false.
Proof. reflexivity. Qed.
Lemma nullable_digest : nullable DIGEST_REGEXP = false.
Proof. reflexivity. Qed.
Lemma nullable_domain : nullable domain = false.
Proof. reflexivity. Qed.

Lemma eqb_char_inv (a b : ascii) : Ascii.eqb a b = true -> b = a.
Proof. intros H. by apply Ascii.eqb_eq in H. Qed.

(** An optional part made of a separator and a captured pattern. *)
Lemma matches_opt_part sep r i w c c' :
  ngroups r = 0 -> nullable r = false ->
  matches (Alt (Seq (Chr (Ascii.eqb sep)) (Cap r)) Eps) i w c c' ->
  exists o, w = opt_part sep o /\ o <> Some [] /\
            c' = match o with Some v => <[i := Some v]> c | None => c end.
Proof.
  intros Hg Hn H. apply matches_Alt_inv in H as [H|H].
  - apply matches_Seq_inv in H as (w1 & w2 & c1 & -> & H1 & H2).
    apply matches_Chr_inv in H1 as (a & -> & Ha & ->).
    apply eqb_char_inv in Ha as ->. simpl in H2.
    apply matches_Cap_inv in H2 as (c2 & H2 & ->).
    pose proof (matches_nocap _ _ _ _ _ H2 Hg) as ->.
    exists (Some w2). rewrite Nat.add_0_r. split; [done|]. split; [|done].
    intros [= ->]. apply matches_lang in H2. by eapply lang_nonempty in H2.
  - apply matches_Eps_inv in H as [-> ->]. exists None. by split.
Qed.

(** A full match of the reference pattern: the name, then the tag and the
    digest when they are there. *)
Lemma reference_match x c :
  fullmatch REFERENCE_REGEXP x = Some c ->
  exists nm t d,
    c = [Some nm; t; d] /\
    x = nm ++ opt_part ":" t ++ opt_part "@" d /\
    lang name_pat nm /\ nm <> [] /\ t <> Some [] /\ d <> Some [].
Proof.
  intros H. apply fullmatch_sound in H.
  rewrite ngroups_reference in H. rewrite reference_pat_shape in H.
  apply matches_Seq_inv in H as (w1 & w23 & c1 & -> & H1 & H23).
  apply matches_Cap_inv in H1 as (c0 & H1 & ->).
  pose proof (matches_nocap _ _ _ _ _ H1 ngroups_name_pat) as ->.
  apply matches_Seq_inv in H23 as (w2 & w3 & c2 & -> & H2 & H3).
  cbn [ngroups] in H2, H3. rewrite ngroups_name_pat, ?ngroups_tag in H2, H3.
  apply matches_opt_part in H2 as (t & -> & Ht & ->);
    [|exact ngroups_tag|exact nullable_tag].
  apply matches_opt_part in H3 as (d & -> & Hd & ->);
    [|exact ngroups_digest|exact nullable_digest].
  apply matches_lang in H1.
  exists w1, t, d. split.
  { destruct t, d; reflexivity. }
  split; [done|]. split; [done|]. split; [|done].
  by eapply lang_nonempty.
Qed.

(** A full match of the anchored name pattern: the domain and a slash when
    the first group takes part, then the path. *)
Lemma anchored_name_match y c :
  fullmatch ANCHORED_NAME_REGEXP y = Some c ->
  exists dm p,
    c = [dm; Some p] /\
    y = match dm with Some d => d ++ "/"%char :: p | None => p end /\
    dm <> Some [].
Proof.
  intros H. apply fullmatch_sound in H.
  rewrite ngroups_anchored_name in H. rewrite anchored_name_shape in H.
  apply matches_Seq_inv in H as (w1 & w2 & c1 & -> & H1 & H2).
  apply matches_Cap_inv in H2 as (c2 & H2 & ->).
  assert (ngroups (Seq name_pat (optional [repeated [literal "/"; name_pat]])) = 0)
    as Hg by reflexivity.
  pose proof (matches_nocap _ _ _ _ _ H2 Hg) as ->.
  cbn [ngroups] in *. rewrite ngroups_domain in *.
  apply matches_Alt_inv in H1 as [H1|H1].
  - apply matches_Seq_inv in H1 as (d & sl & c3 & -> & Hd & Hs).
    apply matches_Chr_inv in Hs as (a & -> & Ha & ->).
    apply eqb_char_inv in Ha as ->.
    apply matches_Cap_inv in Hd as (c4 & Hd & ->).
    pose proof (matches_nocap _ _ _ _ _ Hd ngroups_domain) as ->.
    exists (Some d), w2. split; [reflexivity|]. split.
    { by rewrite <- app_assoc. }
    intros [= ->]. apply matches_lang in Hd.
    by eapply lang_nonempty in Hd.
  - apply matches_Eps_inv in H1 as [-> ->].
    exists None, w2. by split.
Qed.

(** Every name of the reference grammar is matched by the anchored name
    pattern. *)
Lemma anchored_name_total nm :
  lang name_pat nm -> is_Some (fullmatch ANCHORED_NAME_REGEXP nm).
Proof.
  intros H. apply fullmatch_complete. rewrite anchored_name_shape.
  replace nm with ([] ++ nm) by done.
  apply LSeq; [apply LAltR, LEps|].
  apply LCap. replace nm with (nm ++ []) by apply app_nil_r.
  apply LSeq; [done|]. apply LAltR, LEps.
Qed.

End reference_shape.

(** ** parse *)
Section parse_facts.
Import Py Re utlis reference Props.

Variable is_digest : list ascii -> bool.

Lemma eqb_nil_false (w : list ascii) : w <> [] -> Py.eqb w (s "") = false.
Proof. intros H. unfold Py.eqb. by apply bool_decide_eq_false. Qed.

Lemma eqb_nil_true : Py.eqb [] (s "") = true.
Proof. reflexivity. Qed.

Lemma name_of_parts dm p nm :
  nm = match dm with Some d => d ++ "/"%char :: p | None => p end ->
  dm <> Some [] ->
  (if Py.eqb (default [] dm) (s "") then p else default [] dm ++ s "/" ++ p) = nm.
Proof.
  intros -> Hdm.
  destruct dm as [dv|]; cbn [default id from_option].
  - rewrite (eqb_nil_false dv) by congruence. reflexivity.
  - by rewrite eqb_nil_true.
Qed.

(** What [parse] does with a text that matches the reference pattern. *)
Lemma parse_matched x c :
  fullmatch REFERENCE_REGEXP x = Some c ->
  exists nm t d dm p,
    c = [Some nm; t; d] /\
    x = nm ++ opt_part ":" t ++ opt_part "@" d /\
    nm = match dm with Some dv => dv ++ "/"%char :: p | None => p end /\
    nm <> [] /\ t <> Some [] /\ d <> Some [] /\ dm <> Some [] /\
    parse is_digest x =
      if NameTotalLengthMax <? length nm then Raise ErrNameTooLong
      else
        match d with
        | Some dv =>
            if is_digest dv then
              Ok (match t with
                  | Some tv => FullReference (default [] dm) p tv {| value := dv |}
                  | None => CanonicalReference (default [] dm) p {| value := dv |}
                  end)
            else Raise (Exception (s "invalid digest format: " ++ dv))
        | None =>
            Ok (match t with
                | Some tv => TaggedReference (default [] dm) p tv
                | None => NamedReference (default [] dm) p
                end)
        end.
Proof.
  intros Hm.
  destruct (reference_match _ _ Hm) as (nm & t & d & -> & Hx & Hl & Hnm & Ht & Hd).
  destruct (anchored_name_total nm Hl) as [c2 Hc2].
  destruct (anchored_name_match _ _ Hc2) as (dm & p & -> & Hy & Hdm).
  pose proof (name_of_parts dm p nm Hy Hdm) as Hname.
  exists nm, t, d, dm, p. do 7 (split; [done|]).
  unfold parse, findall. rewrite Hm. cbn [groups fmap list_fmap nth].
  change (default [] (Some nm)) with nm.
  destruct (NameTotalLengthMax <? length nm); [done|].
  rewrite Hc2. cbn [groups fmap list_fmap].
  change (default [] (Some p)) with p.
  unfold Reference_name; cbn [ref_domain ref_path].
  rewrite Hname, (eqb_nil_false nm) by done.
  destruct t as [tv|], d as [dv|]; cbn [default id from_option] in *.
  all: rewrite ?(eqb_nil_false tv), ?(eqb_nil_false dv) by congruence.
  all: rewrite ?eqb_nil_true; cbn [negb].
  all: rewrite ?(eqb_nil_false tv) by congruence.
  all: try destruct (is_digest dv); reflexivity.
Qed.

(** What [parse] does with a text that does not match. *)
Lemma parse_unmatched x :
  fullmatch REFERENCE_REGEXP x = None ->
  parse is_digest x =
    if Py.eqb x (s "") then Raise ErrNameEmpty
    else if negb (islower x) then Raise ErrNameContainsUppercase
    else Raise ErrReferenceInvalidFormat.
Proof. intros H. unfold parse, findall. by rewrite H. Qed.

Lemma parse_empty : parse is_digest (s "") = Raise ErrNameEmpty.
Proof. reflexivity. Qed.

(** A text that does not match and has an uppercase letter is
    [ErrNameContainsUppercase]. *)
Lemma parse_unmatched_uppercase x :
  fullmatch REFERENCE_REGEXP x = None ->
  existsb is_upper x = true ->
  parse is_digest x = Raise ErrNameContainsUppercase.
Proof.
  intros Hm Hu. rewrite (parse_unmatched x Hm).
  destruct x as [|a x]; [done|]. rewrite (eqb_nil_false (a :: x)) by done.
  unfold islower. apply existsb_exists in Hu as (c & Hc & Hu).
  destruct (forallb (fun c => negb (is_upper c)) (a :: x)) eqn:Hf; [|done].
  rewrite forallb_forall in Hf. specialize (Hf c Hc). by rewrite Hu in Hf.
Qed.

(** A text that does not match, with lowercase letters and no uppercase
    one, is [ErrReferenceInvalidFormat]. *)
Lemma parse_unmatched_lowercase x :
  fullmatch REFERENCE_REGEXP x = None ->
  islower x = true ->
  parse is_digest x = Raise ErrReferenceInvalidFormat.
Proof.
  intros Hm Hl. rewrite (parse_unmatched x Hm), Hl.
  destruct x as [|a x]; [done|]. by rewrite (eqb_nil_false (a :: x)).
Qed.

(** A text that does not match, is not empty and has no cased character is
    reported as [ErrNameContainsUppercase] too. *)
Lemma parse_unmatched_caseless x :
  fullmatch REFERENCE_REGEXP x = None ->
  x <> [] ->
  existsb is_lower x = false ->
  parse is_digest x = Raise ErrNameContainsUppercase.
Proof.
  intros Hm Hne Hl. rewrite (parse_unmatched x Hm), (eqb_nil_false x) by done.
  unfold islower. rewrite Hl. by rewrite andb_false_r.
Qed.

(** A matched name of more than 255 characters is [ErrNameTooLong]. *)
Lemma parse_name_too_long x c :
  fullmatch REFERENCE_REGEXP x = Some c ->
  NameTotalLengthMax < length (nth 0 (groups c) []) ->
  parse is_digest x = Raise ErrNameTooLong.
Proof.
  intros Hm Hlen.
  destruct (parse_matched x c Hm) as (nm & t & d & dm & p & -> & _ & _ & _ & _ & _ & _ & ->).
  cbn [groups fmap list_fmap nth default id from_option] in Hlen.
  destruct (Nat.ltb_spec NameTotalLengthMax (length nm)); [done|lia].
Qed.


(** The texts [parse] accepts are the syntactically valid ones. *)
Lemma parse_ok_valid x r :
  parse is_digest x = Ok r -> syntactically_valid is_digest x.
Proof.
  intros H.
  destruct (fullmatch REFERENCE_REGEXP x) as [c|] eqn:Hm.
  - exists c. split; [done|].
    destruct (parse_matched x c Hm) as (nm & t & d & dm & p & -> & _ & _ & _ & _ & _ & _ & Hp).
    rewrite Hp in H. cbn [groups fmap list_fmap nth default id from_option].
    destruct (Nat.ltb_spec NameTotalLengthMax (length nm)); [done|].
    split; [done|]. intros Hne.
    destruct d as [dv|]; [|done]. cbn [default id from_option] in *.
    by destruct (is_digest dv).
  - rewrite (parse_unmatched x Hm) in H.
    destruct (Py.eqb x (s "")); [done|]. by destruct (negb (islower x)).
Qed.

End parse_facts.

Section parse_roundtrip.
  Import Py Re utlis reference Props.




End parse_roundtrip.

(** ** split_docker_domain and parse_normalized_named *)
Section normalized.
Import Py Re utlis reference Props.

Lemma find_None_contains c x : find c x = None -> contains c x = false.
Proof.
  unfold contains. induction x as [|a x IH]; simpl; [done|].
  rewrite (Ascii.eqb_sym c a).
  destruct (Ascii.eqb a c); [done|].
  destruct (find c x); [done|]. intros _. by apply IH.
Qed.

Lemma find_Some_contains c x i : find c x = Some i -> contains c x = true.
Proof.
  unfold contains. revert i. induction x as [|a x IH]; simpl; intros i; [done|].
  rewrite (Ascii.eqb_sym c a).
  destruct (Ascii.eqb a c); [done|].
  destruct (find c x) as [j|]; [|done]. intros _. by apply (IH j).
Qed.

Lemma findall_class_nil x :
  findall_class (one_of ".:") x = [] <-> ~ has_dot_or_colon x.
Proof.
  unfold findall_class, has_dot_or_colon.
  assert (forall l : list ascii, (fun a => [a]) <$> l = [] <-> l = []) as ->.
  { intros l. split; [apply fmap_nil_inv|by intros ->]. }
  induction x as [|a x IH].
  - split; [|done]. intros _ (c & Hc & _). by apply elem_of_nil in Hc.
  - rewrite filter_cons. destruct (decide (one_of ".:" a = true)) as [Ha|Ha].
    + split; [done|]. intros H. exfalso. apply H. exists a. split; [left|].
      unfold one_of in Ha. simpl in Ha. rewrite !orb_true_iff in Ha.
      destruct Ha as [Ha|[Ha|Ha]]; [| |done]; apply Ascii.eqb_eq in Ha; auto.
    + rewrite IH. split.
      * intros H (c & Hc & Hdc). apply elem_of_cons in Hc as [->|Hc].
        -- apply Ha. unfold one_of. simpl. by destruct Hdc as [->| ->].
        -- apply H. by exists c.
      * intros H (c & Hc & Hdc). apply H. exists c. split; [by right|done].
Qed.

(** C8: [split_docker_domain] sends [foo] to the default host with the path
    [library/foo], and [a.com/foo] to the host [a.com] with the path [foo].
    In general a name without a slash, or whose prefix before the first slash
    has neither a dot nor a colon and is not [localhost], is as a whole a path
    under the default host, with [library/] put before it when it has no
    slash; and a path on another host is left as it is. *)
Theorem split_docker_domain_default_host :
  split_docker_domain (s "foo") = (s "registry-1.docker.io", s "library/foo") /\
  split_docker_domain (s "a.com/foo") = (s "a.com", s "foo") /\
  (forall name, under_default_host name ->
     split_docker_domain name =
       (DEFAULT_REGISTRY_HOST,
        if contains "/" name then name else s "library/" ++ name)) /\
  (forall name index, find "/" name = Some index ->
     ~ under_default_host name ->
     take index name <> DEFAULT_REGISTRY_HOST ->
     take index name <> s "index.docker.io" ->
     split_docker_domain name = (take index name, drop (S index) name)).
Proof.
  split; [reflexivity|]. split; [reflexivity|]. split.
  - intros name H. unfold under_default_host in H. unfold split_docker_domain.
    destruct (find "/" name) as [index|] eqn:Hf.
    + destruct H as [Hdc Hl].
      apply findall_class_nil in Hdc. rewrite bool_decide_eq_true_2 by done.
      unfold Py.eqb at 1. rewrite bool_decide_eq_false_2 by done. cbn [negb andb].
      change (Py.eqb DEFAULT_REGISTRY_HOST (s "index.docker.io")) with false. cbv iota.
      change (Py.eqb DEFAULT_REGISTRY_HOST DEFAULT_REGISTRY_HOST) with true.
      by rewrite (find_Some_contains _ _ _ Hf).
    + change (Py.eqb DEFAULT_REGISTRY_HOST (s "index.docker.io")) with false. cbv iota.
      change (Py.eqb DEFAULT_REGISTRY_HOST DEFAULT_REGISTRY_HOST) with true.
      by rewrite (find_None_contains _ _ Hf).
  - intros name index Hf H Hd Hi. unfold under_default_host in H. rewrite Hf in H.
    unfold split_docker_domain. rewrite Hf.
    assert (bool_decide (findall_class (one_of ".:") (take index name) = [])
            && negb (Py.eqb (take index name) (s "localhost")) = false) as ->.
    { apply not_true_is_false. intros Hc. apply andb_true_iff in Hc as [H1 H2].
      apply H. split.
      - apply findall_class_nil. by apply bool_decide_eq_true_1 in H1.
      - intros Heq. unfold Py.eqb in H2. by rewrite bool_decide_eq_true_2 in H2. }
    unfold Py.eqb. rewrite !bool_decide_eq_false_2 by done. cbn [andb].
    by rewrite Nat.add_1_r.
Qed.

(** A name that spells the default host or its alias [index.docker.io] out
    is on the default host too, and its path gets [library/] when it has no
    slash. *)
Lemma split_docker_domain_explicit_default name index :
  find "/" name = Some index ->
  take index name = DEFAULT_REGISTRY_HOST \/ take index name = s "index.docker.io" ->
  split_docker_domain name =
    (DEFAULT_REGISTRY_HOST,
     if contains "/" (drop (S index) name) then drop (S index) name
     else s "library/" ++ drop (S index) name).
Proof.
  intros Hf H. unfold split_docker_domain. rewrite Hf, Nat.add_1_r.
  destruct H as [-> | ->].
  - assert (bool_decide (findall_class (one_of ".:") DEFAULT_REGISTRY_HOST = [])
            && negb (Py.eqb DEFAULT_REGISTRY_HOST (s "localhost")) = false) as ->
      by reflexivity.
    change (Py.eqb DEFAULT_REGISTRY_HOST (s "index.docker.io")) with false. cbv iota.
    change (Py.eqb DEFAULT_REGISTRY_HOST DEFAULT_REGISTRY_HOST) with true.
    by destruct (contains "/" (drop (S index) name)).
  - assert (bool_decide (findall_class (one_of ".:") (s "index.docker.io") = [])
            && negb (Py.eqb (s "index.docker.io") (s "localhost")) = false) as ->
      by reflexivity.
    change (Py.eqb (s "index.docker.io") (s "index.docker.io")) with true. cbv iota.
    change (Py.eqb DEFAULT_REGISTRY_HOST DEFAULT_REGISTRY_HOST) with true.
    by destruct (contains "/" (drop (S index) name)).
Qed.

Lemma exec_exactly_chr p n : forall w x' i c k,
  length w = n -> forallb p w = true ->
  exec (Exactly n (Chr p)) i (w ++ x') c k = k x' c.
Proof.
  induction n as [|n IH]; intros w x' i c k Hl Hp.
  - by destruct w.
  - destruct w as [|a w]; [done|]. simpl in *.
    apply andb_true_iff in Hp as [-> Hp]. apply IH; [lia|done].
Qed.

Lemma identifier_fullmatch name :
  is_hex64 name -> is_Some (fullmatch IDENTIFIER_REGEXP name).
Proof.
  intros [Hl Hp]. unfold fullmatch, IDENTIFIER_REGEXP. cbn [exec ngroups].
  rewrite <- (app_nil_r name) at 1.
  rewrite exec_exactly_chr by done. by eexists.
Qed.

Lemma upper_not_islower x : existsb is_upper x = true -> islower x = false.
Proof.
  intros H. unfold islower. apply andb_false_iff. left.
  apply not_true_is_false. intros Hf.
  apply existsb_exists in H as (c & Hc & Hu).
  rewrite forallb_forall in Hf. specialize (Hf c Hc). by rewrite Hu in Hf.
Qed.

Lemma partition_head_no_sep c x : find c x = None -> partition_head c x = x.
Proof. intros H. unfold partition_head. by rewrite H. Qed.

(** C9: [parse_normalized_named] fails on every text of exactly 64
    lowercase hexadecimal characters, and on every input whose repository
    path contains an uppercase letter. *)
Theorem parse_normalized_named_rejects (is_digest : list ascii -> bool) (name : list ascii) :
  is_hex64 name \/ existsb is_upper (remote_name name) = true ->
  exists msg, parse_normalized_named is_digest name = Raise (Exception msg).
Proof.
  intros H. unfold parse_normalized_named.
  destruct (bool_decide (is_Some (fullmatch IDENTIFIER_REGEXP name))) eqn:Hid.
  { by eexists. }
  destruct H as [H|H].
  { apply identifier_fullmatch in H. by rewrite bool_decide_eq_true_2 in Hid. }
  unfold remote_name in H.
  destruct (split_docker_domain name) as [domain remainder]. cbn [snd] in H.
  assert ((if bool_decide (is_Some (find ":" remainder))
           then partition_head ":" remainder else remainder)
          = partition_head ":" remainder) as ->.
  { destruct (find ":" remainder) as [j|] eqn:Hf.
    - by rewrite bool_decide_eq_true_2 by by eexists.
    - rewrite bool_decide_eq_false_2 by by intros [? ?].
      symmetry. by apply partition_head_no_sep. }
  rewrite (upper_not_islower _ H). by eexists.
Qed.

(** The rejection of a text of 64 hexadecimal characters, and of the path
    [Foo] on the host [a.com]. *)
Lemma parse_normalized_named_rejects_witness :
  (exists msg, parse_normalized_named (fun _ => true)
                 (s "0123456789abcdef0123456789abcdef0123456789abcdef0123456789abcdef")
               = Raise (Exception msg)) /\
  (exists msg, parse_normalized_named (fun _ => true) (s "a.com/Foo:v1")
               = Raise (Exception msg)).
Proof.
  split.
  - apply (parse_normalized_named_rejects (fun _ => true)
             (s "0123456789abcdef0123456789abcdef0123456789abcdef0123456789abcdef")).
    left. split; reflexivity.
  - apply (parse_normalized_named_rejects (fun _ => true) (s "a.com/Foo:v1")).
    right. reflexivity.
Defined.

End normalized.

(** ** Reference.target *)
Section target_facts.
Import Py utlis reference.

Lemma target_tagged domain path tag :
  target (TaggedReference domain path tag) = tag.
Proof. reflexivity. Qed.

Lemma target_digest_variants domain path digest :
  target (CanonicalReference domain path digest) = value digest /\
  target (DigestReference digest) = value digest.
Proof. by split. Qed.

(** C3: the target of a [FullReference] is not its tag: the class takes
    [NamedReference.target], which is the text [latest] whatever the tag is;
    so it is for the reference [foo:v1@sha256:...] whose tag is [v1]. *)
Theorem target_full_reference_is_latest domain path tag digest :
  target (FullReference domain path tag digest) = s "latest" /\
  target (FullReference (s "") (s "foo") (s "v1") digest) <> s "v1".
Proof. split; [reflexivity|]. intros H. discriminate H. Qed.

End target_facts.

(** ** The errors of parse *)
Section parse_errors.
Import Py Re utlis reference Props.

(** C4: the text [-] does not match the reference pattern, is not empty and
    has no uppercase letter, and [parse] raises [ErrNameContainsUppercase]
    for it, where [ErrReferenceInvalidFormat] is due. *)
Theorem parse_caseless_text_reported_uppercase (is_digest : list ascii -> bool) :
  fullmatch REFERENCE_REGEXP (s "-") = None /\
  existsb is_upper (s "-") = false /\
  parse is_digest (s "-") = Raise ErrNameContainsUppercase.
Proof. split; [reflexivity|]. split; reflexivity. Qed.

End parse_errors.

(** ** ManifestsListResp.filter *)
Section filter_facts.
Import Py utlis.

Lemma filter_loop_first pre : forall m post target,
  platform m = Some target ->
  (forall m', m' ∈ pre -> platform m' <> Some target) ->
  filter_loop (pre ++ m :: post) target = Ok m.
Proof.
  induction pre as [|m0 pre IH]; intros m post target Hm Hpre; simpl.
  - by rewrite bool_decide_eq_true_2.
  - rewrite bool_decide_eq_false_2 by (apply Hpre; left).
    apply IH; [done|]. intros m' Hm'. apply Hpre. by right.
Qed.

Lemma filter_loop_none ms target :
  (forall m, m ∈ ms -> platform m <> Some target) ->
  filter_loop ms target = Raise (Exception (s "Not Found Matching image")).
Proof.
  induction ms as [|m0 ms IH]; intros H; simpl; [done|].
  rewrite bool_decide_eq_false_2 by (apply H; left).
  apply IH. intros m Hm. apply H. by right.
Qed.

Lemma platform_eq (p q : Platform) :
  os p = os q -> architecture p = architecture q -> variant p = variant q -> p = q.
Proof. destruct p, q; simpl; by intros -> -> ->. Qed.

(** C5, as amended: when some entry's platform equals the target in os,
    architecture and variant, [filter] returns the digest of the first such
    entry; when no entry's platform equals the target, it raises a plain
    [Exception] with the text [Not Found Matching image]. *)
Theorem filter_selects_first_match (self : ManifestsListResp) (target : Platform) :
  (forall pre m post p,
     manifests self = pre ++ m :: post ->
     platform m = Some p ->
     os p = os target -> architecture p = architecture target ->
     variant p = variant target ->
     (forall m', m' ∈ pre -> platform m' <> Some target) ->
     filter self target = Ok (digest m)) /\
  ((forall m, m ∈ manifests self -> platform m <> Some target) ->
   filter self target = Raise (Exception (s "Not Found Matching image"))).
Proof.
  split.
  - intros pre m post p Hms Hp Ho Ha Hv Hpre. unfold filter. rewrite Hms.
    rewrite (platform_eq p target Ho Ha Hv) in Hp.
    by rewrite (filter_loop_first pre m post target Hp Hpre).
  - intros H. unfold filter. by rewrite (filter_loop_none _ _ H).
Qed.

End filter_facts.

(** ** diff_ids_to_chain_ids *)
Section chain_facts.
Import Py utlis Props.

Lemma get_chain_id_one prev d :
  get_chain_id prev [d] = if Py.eqb prev (s "") then d else chain_step prev d.
Proof. reflexivity. Qed.

Lemma last_of_snoc acc v : last_of (acc ++ [v]) = v.
Proof. unfold last_of. by rewrite last_snoc. Qed.

Lemma fold_chain rest : forall acc,
  fold_left (fun result diff_id => result ++ [get_chain_id (last_of result) [diff_id]])
    rest acc
  = acc ++ chain (last_of acc) rest.
Proof.
  induction rest as [|d rest IH]; intros acc; simpl.
  - by rewrite app_nil_r.
  - rewrite IH, last_of_snoc, <- app_assoc. reflexivity.
Qed.

Lemma diff_ids_to_chain_ids_eq d0 rest :
  diff_ids_to_chain_ids (d0 :: rest) = Ok (d0 :: chain d0 rest).
Proof. unfold diff_ids_to_chain_ids. by rewrite fold_chain. Qed.

Lemma chain_length rest : forall prev, length (chain prev rest) = length rest.
Proof. induction rest as [|d rest IH]; intros prev; simpl; [done|]. by rewrite IH. Qed.

Lemma chain_adjacent rest : forall prev0 i prev d,
  (prev0 :: chain prev0 rest) !! i = Some prev ->
  rest !! i = Some d ->
  chain prev0 rest !! i = Some (get_chain_id prev [d]).
Proof.
  induction rest as [|d' rest IH]; intros prev0 i prev d Hp Hd; [done|].
  destruct i as [|i].
  - simpl in *. by simplify_eq.
  - apply (IH _ i); [|done]. exact Hp.
Qed.

Lemma chain_step_nonempty prev d : chain_step prev d <> s "".
Proof. discriminate. Qed.

Lemma chain_nonempty rest : forall prev0 i v,
  prev0 <> s "" -> (prev0 :: chain prev0 rest) !! i = Some v -> v <> s "".
Proof.
  induction rest as [|d rest IH]; intros prev0 i v H0 Hv.
  - destruct i; simpl in Hv; [by simplify_eq|done].
  - destruct i as [|i]; [simpl in Hv; by simplify_eq|].
    apply (IH (get_chain_id prev0 [d]) i); [|exact Hv].
    rewrite get_chain_id_one. unfold Py.eqb. rewrite bool_decide_eq_false_2 by done.
    apply chain_step_nonempty.
Qed.

(** C10, as amended: for a list of diff IDs that is not empty, the result
    has the same length and the same first element; the element after an
    element [prev] is [sha256:] and the digest of [prev], a space and the next
    diff ID when [prev] is not the empty text, and the next diff ID itself
    when it is; when the first diff ID is not the empty text, no element is,
    and every element after the first is such a digest. *)
Theorem diff_ids_to_chain_ids_chain (diff_ids : list (list ascii)) :
  diff_ids <> [] ->
  exists result,
    diff_ids_to_chain_ids diff_ids = Ok result /\
    length result = length diff_ids /\
    result !! 0 = diff_ids !! 0 /\
    (forall i prev d,
       result !! i = Some prev -> diff_ids !! (S i) = Some d ->
       result !! (S i) = Some (if Py.eqb prev (s "") then d else chain_step prev d)) /\
    (diff_ids !! 0 <> Some (s "") ->
     forall i prev d,
       result !! i = Some prev -> diff_ids !! (S i) = Some d ->
       result !! (S i) = Some (chain_step prev d)).
Proof.
  intros Hne. destruct diff_ids as [|d0 rest]; [done|].
  exists (d0 :: chain d0 rest). split; [apply diff_ids_to_chain_ids_eq|].
  split; [simpl; by rewrite chain_length|]. split; [done|].
  assert (Hadj : forall i prev d,
            (d0 :: chain d0 rest) !! i = Some prev -> (d0 :: rest) !! S i = Some d ->
            (d0 :: chain d0 rest) !! S i
            = Some (if Py.eqb prev (s "") then d else chain_step prev d)).
  { intros i prev d Hp Hd. simpl in Hd |- *.
    rewrite <- get_chain_id_one. by apply chain_adjacent. }
  split; [exact Hadj|].
  intros H0 i prev d Hp Hd. rewrite (Hadj i prev d Hp Hd).
  assert (prev <> s "") as Hprev.
  { apply (chain_nonempty rest d0 i); [|done]. intros ->. by apply H0. }
  unfold Py.eqb. by rewrite bool_decide_eq_false_2.
Qed.

(** The chain IDs of the diff IDs [a] and [b]. *)
Lemma diff_ids_to_chain_ids_chain_witness :
  exists result,
    diff_ids_to_chain_ids [s "a"; s "b"] = Ok result /\
    length result = 2 /\
    result !! 0 = Some (s "a") /\
    (forall i prev d,
       result !! i = Some prev -> [s "a"; s "b"] !! (S i) = Some d ->
       result !! (S i) = Some (if Py.eqb prev (s "") then d else chain_step prev d)) /\
    (Some (s "a") <> Some (s "") ->
     forall i prev d,
       result !! i = Some prev -> [s "a"; s "b"] !! (S i) = Some d ->
       result !! (S i) = Some (chain_step prev d)).
Proof.
  apply (diff_ids_to_chain_ids_chain [s "a"; s "b"]). discriminate.
Defined.

(** C10, as stated, fails on the two diff IDs of which the first is the
    empty text and the second is [x]: the second chain ID is [x] itself, not
    the digest. *)
Lemma diff_ids_to_chain_ids_empty_first :
  diff_ids_to_chain_ids [s ""; s "x"] = Ok [s ""; s "x"] /\
  s "x" <> chain_step (s "") (s "x").
Proof. split; [reflexivity|discriminate]. Qed.

End chain_facts.

(** ** The client *)
Section client_facts.
Import Py utlis client Scenarios.

Lemma logger_catch_never_raises {A} (m : M A) st :
  exists r, snd (logger_catch m st) = Ok r.
Proof. unfold logger_catch. destruct (m st) as [st' [a|e]]; by eexists. Qed.

(** A layer job never raises: a failed assertion is logged. *)
Lemma layer_job_never_raises w self base_url digest save_dir headers index st :
  exists r,
    snd (_download_and_decompress_layer w self base_url digest save_dir headers index st)
    = Ok r.
Proof. apply logger_catch_never_raises. Qed.

Lemma pull_image_never_raises w repo self image_name repo_name reference save_dir st :
  exists r, snd (pull_image w repo self image_name repo_name reference save_dir st) = Ok r.
Proof. apply logger_catch_never_raises. Qed.

Lemma handle_challenges_basic w self challenge scope :
  scheme challenge <> Bearer -> _handle_challenges w self challenge scope = Ok ∅.
Proof.
  intros H. unfold _handle_challenges. destruct (scheme challenge); [done|reflexivity].
Qed.

(** The Bearer scheme is the one wired to a handler, and the call that is
    to build the handler raises. *)
Lemma handle_challenges_bearer w self challenge scope :
  scheme challenge = Bearer ->
  _handle_challenges w self challenge scope = Raise TypeError.
Proof. intros H. unfold _handle_challenges. by rewrite H. Qed.

(** What a pull does: it logs one exception and returns [None]. *)
Lemma pull_image_cases w repo self image_name repo_name reference save_dir st :
  pull_image w repo self image_name repo_name reference save_dir st
  = ({| dirs := dirs st; files := files st;
        log := log st ++ [if bool_decide (save_dir ∈ dirs st) then TypeError
                          else Exception (s "save dir " ++ save_dir ++ s " not exists")] |},
     Ok None).
Proof.
  unfold pull_image, logger_catch. unfold mbind at 1. unfold is_dir.
  case_bool_decide; reflexivity.
Qed.

(** C6, as amended: when the challenge of the ping response is accepted by
    [PingResp] and its scheme is not [Bearer], the authorization header is the
    empty dictionary. *)
Theorem auth_header_non_bearer (w : world) (host : list ascii)
    (username password : option (list ascii)) (scheme : list ascii)
    (scope : ScopeType) (challenge : list ascii) (ping_resp : PingResp) :
  resp_headers
    (http w {| method := s "GET";
               url := _base_url (ImageClient_init host username password scheme) ++ s "/v2/";
               req_headers := ∅ |}) !! s "WWW-Authenticate" = Some challenge ->
  PingResp_init challenge = Ok ping_resp ->
  utlis.scheme ping_resp <> Bearer ->
  auth_header w (ImageClient_init host username password scheme) scope = Ok ∅.
Proof.
  intros Hh Hp Hs. unfold auth_header. cbn [_pinged ImageClient_init].
  unfold ping. rewrite Hh, Hp. cbn [bind].
  by apply handle_challenges_basic.
Qed.

(** The empty dictionary for a challenge with the scheme [Basic]. *)
Lemma auth_header_non_bearer_witness :
  auth_header (challenging basic_challenge) a_com pull_scope = Ok ∅.
Proof.
  eapply (auth_header_non_bearer (challenging basic_challenge) (s "a.com") None None
            (s "https") pull_scope basic_challenge).
  - vm_compute. reflexivity.
  - vm_compute. reflexivity.
  - discriminate.
Defined.

(** A challenge that [PingResp] accepts has exactly two parts separated by a
    space, and its first part is the value of a member of [ChallengeScheme]. *)
Lemma PingResp_init_ok_inv challenge ping_resp :
  PingResp_init challenge = Ok ping_resp ->
  exists scheme params,
    split " " challenge = [scheme; params] /\
    ChallengeScheme_of scheme = Ok (utlis.scheme ping_resp) /\
    (scheme = s "Bearer" \/ scheme = s "Basic").
Proof.
  unfold PingResp_init. intros H.
  destruct (split " " challenge) as [|sch [|params [|? ?]]]; try done.
  exists sch, params. split; [done|].
  destruct (dict_of_params (split "," params) ∅) as [d|e]; [|done].
  cbn [bind] in H.
  destruct (ChallengeScheme_of sch) as [sc|e] eqn:Hsc; [|done].
  cbn [bind] in H.
  destruct (d !! s "realm"); [|done]. destruct (d !! s "service"); [|done].
  injection H as <-. split; [done|].
  unfold ChallengeScheme_of in Hsc. unfold Py.eqb in Hsc.
  repeat case_bool_decide; auto; done.
Qed.

(** A challenge of two parts whose scheme is neither [Bearer] nor [Basic] is
    refused with [ValueError]. *)
Lemma PingResp_other_scheme challenge scheme params :
  split " " challenge = [scheme; params] ->
  scheme <> s "Bearer" -> scheme <> s "Basic" ->
  PingResp_init challenge = Raise ValueError.
Proof.
  intros Hs Hb1 Hb2. unfold PingResp_init. rewrite Hs.
  destruct (dict_of_params (split "," params) ∅) as [d|e] eqn:Hd.
  - cbn [bind]. unfold ChallengeScheme_of, Py.eqb.
    by rewrite !bool_decide_eq_false_2.
  - cbn [bind]. f_equal.
    clear -Hd. revert Hd. generalize (∅ : gmap (list ascii) (list ascii)).
    induction (split "," params) as [|q qs IH]; intros d0 Hd; simpl in Hd; [done|].
    destruct (split "=" q) as [|k [|v [|? ?]]]; try by injection Hd.
    by apply (IH _ Hd).
Qed.

(** C6, as stated, fails on a challenge with the scheme [Digest]: the
    authorization header is not the empty dictionary, [ValueError] is
    raised. *)
Lemma auth_header_digest_scheme_raises :
  take 6 digest_challenge = s "Digest" /\
  auth_header (challenging digest_challenge) a_com pull_scope = Raise ValueError.
Proof. split; vm_compute; reflexivity. Qed.

End client_facts.

(** ** The properties at concrete inputs *)
Section instances.
Import Py Re utlis reference Props Scenarios.

(** The selection among linux/amd64 and linux/arm64: the arm64 entry for the
    target linux/arm64, a failure for the target windows/amd64. *)
Lemma filter_selects_first_match_witness :
  filter manifest_list (linux (s "arm64")) = Ok (digest arm64_entry) /\
  filter manifest_list windows_amd64 = Raise (Exception (s "Not Found Matching image")).
Proof.
  split.
  - apply (proj1 (filter_selects_first_match manifest_list (linux (s "arm64")))
             [amd64_entry] arm64_entry [] (linux (s "arm64")));
      try reflexivity.
    intros m' Hm'. apply list_elem_of_singleton in Hm' as ->. discriminate.
  - apply (proj2 (filter_selects_first_match manifest_list windows_amd64)).
    intros m Hm. apply elem_of_cons in Hm as [->|Hm]; [discriminate|].
    apply list_elem_of_singleton in Hm as ->. discriminate.
Defined.

(** C5, as stated, fails on the manifest list for linux/amd64 and
    linux/arm64 with the target windows/amd64: no entry has the target
    platform, and what [filter] raises is a plain [Exception] with a text;
    an exception for a platform without an image is not among those of the
    code. *)
Lemma filter_no_match_plain_exception :
  forallb (fun m => negb (bool_decide (platform m = Some windows_amd64)))
    (manifests manifest_list) = true /\
  filter manifest_list windows_amd64 = Raise (Exception (s "Not Found Matching image")).
Proof. split; reflexivity. Qed.

(** A path under the default host, and a path on the host [localhost]. *)
Lemma split_docker_domain_default_host_witness :
  split_docker_domain (s "foo/bar") = (DEFAULT_REGISTRY_HOST, s "foo/bar") /\
  split_docker_domain (s "localhost/foo") = (s "localhost", s "foo").
Proof.
  split.
  - apply (proj1 (proj2 (proj2 split_docker_domain_default_host)) (s "foo/bar")).
    split; [|discriminate]. apply findall_class_nil. reflexivity.
  - apply (proj2 (proj2 (proj2 split_docker_domain_default_host)) (s "localhost/foo") 9);
      try reflexivity; try discriminate.
    intros [_ H]. by apply H.
Defined.


(** The text of a digest-only reference parses as a tagged reference, the
    algorithm being the path and the hexadecimal part the tag. *)
Lemma parse_bare_digest_is_tagged is_digest :
  parse is_digest
    (to_str (DigestReference
       {| value := s "sha256:0123456789abcdef0123456789abcdef0123456789abcdef0123456789abcdef" |}))
  = Ok (TaggedReference (s "") (s "sha256")
          (s "0123456789abcdef0123456789abcdef0123456789abcdef0123456789abcdef")).
Proof. reflexivity. Qed.

End instances.

(** ** The anatomy of a parsed reference *)
Section anatomy.
Import Py Re utlis reference Props.

Lemma in_all_chars (a : ascii) : In a all_chars.
Proof.
  unfold all_chars. rewrite <- (ascii_nat_embedding a).
  apply in_map, in_seq. pose proof (nat_ascii_bounded a). lia.
Qed.

(** A text in the language of a pattern is made of characters of its
    classes. *)
Lemma lang_within q r w :
  lang r w -> classes_within q r = true -> forallb q w = true.
Proof.
  induction 1; cbn [classes_within forallb]; intros Hq; try done.
  - rewrite forallb_forall in Hq. specialize (Hq a (in_all_chars a)).
    rewrite H in Hq. simpl in Hq. by rewrite Hq.
  - apply andb_true_iff in Hq as [H1 H2]. rewrite forallb_app.
    by rewrite IHlang1, IHlang2.
  - apply andb_true_iff in Hq as [H1 H2]. by apply IHlang.
  - apply andb_true_iff in Hq as [H1 H2]. by apply IHlang.
  - rewrite forallb_app. by rewrite IHlang1, IHlang2.
  - by apply IHlang.
Qed.

Lemma lang_Seq_inv r1 r2 w :
  lang (Seq r1 r2) w -> exists w1 w2, w = w1 ++ w2 /\ lang r1 w1 /\ lang r2 w2.
Proof. inversion 1; subst. by eexists _, _. Qed.

Lemma lang_Alt_inv r1 r2 w : lang (Alt r1 r2) w -> lang r1 w \/ lang r2 w.
Proof. inversion 1; subst; auto. Qed.

Lemma lang_Chr_inv p w : lang (Chr p) w -> exists a, w = [a] /\ p a = true.
Proof. inversion 1; subst. by eexists. Qed.

Lemma lang_Eps_inv w : lang Eps w -> w = [].
Proof. by inversion 1. Qed.

(** At most [n] characters for [{0,n}] of a class. *)
Lemma lang_upto_length p n : forall w, lang (UpTo n (Chr p)) w -> length w <= n.
Proof.
  induction n as [|n IH]; intros w H; simpl in H.
  - apply lang_Eps_inv in H as ->. done.
  - apply lang_Alt_inv in H as [H|H].
    + apply lang_Seq_inv in H as (w1 & w2 & -> & H1 & H2).
      apply lang_Chr_inv in H1 as (a & -> & _). apply IH in H2. simpl. lia.
    + apply lang_Eps_inv in H as ->. simpl. lia.
Qed.

Lemma lang_exactly_length p n : forall w, lang (Exactly n (Chr p)) w -> length w = n.
Proof.
  induction n as [|n IH]; intros w H; simpl in H.
  - by apply lang_Eps_inv in H as ->.
  - apply lang_Seq_inv in H as (w1 & w2 & -> & H1 & H2).
    apply lang_Chr_inv in H1 as (a & -> & _). apply IH in H2. simpl. lia.
Qed.

Lemma lang_atleast_length p n w : lang (AtLeast n (Chr p)) w -> n <= length w.
Proof.
  intros H. apply lang_Seq_inv in H as (w1 & w2 & -> & H1 & H2).
  apply lang_exactly_length in H1. rewrite length_app. lia.
Qed.

(** The optional part again, with the language of what was captured. *)
Lemma matches_opt_part_lang sep r i w c c' :
  ngroups r = 0 ->
  matches (Alt (Seq (Chr (Ascii.eqb sep)) (Cap r)) Eps) i w c c' ->
  exists o, w = opt_part sep o /\
            (forall v, o = Some v -> lang r v) /\
            c' = match o with Some v => <[i := Some v]> c | None => c end.
Proof.
  intros Hg H. apply matches_Alt_inv in H as [H|H].
  - apply matches_Seq_inv in H as (w1 & w2 & c1 & -> & H1 & H2).
    apply matches_Chr_inv in H1 as (a & -> & Ha & ->).
    apply eqb_char_inv in Ha as ->. simpl in H2.
    apply matches_Cap_inv in H2 as (c2 & H2 & ->).
    pose proof (matches_nocap _ _ _ _ _ H2 Hg) as ->.
    exists (Some w2). rewrite Nat.add_0_r. split; [done|]. split; [|done].
    intros v [= <-]. by apply matches_lang in H2.
  - apply matches_Eps_inv in H as [-> ->]. exists None. by split.
Qed.

(** The three parts of a match of the reference pattern, each in the
    language of its pattern. *)
Lemma reference_match_langs x c :
  fullmatch REFERENCE_REGEXP x = Some c ->
  exists nm t d,
    c = [Some nm; t; d] /\
    lang name_pat nm /\
    (forall tv, t = Some tv -> lang tag tv) /\
    (forall dv, d = Some dv -> lang DIGEST_REGEXP dv).
Proof.
  intros H. apply fullmatch_sound in H.
  rewrite ngroups_reference in H. rewrite reference_pat_shape in H.
  apply matches_Seq_inv in H as (w1 & w23 & c1 & -> & H1 & H23).
  apply matches_Cap_inv in H1 as (c0 & H1 & ->).
  pose proof (matches_nocap _ _ _ _ _ H1 ngroups_name_pat) as ->.
  apply matches_Seq_inv in H23 as (w2 & w3 & c2 & -> & H2 & H3).
  cbn [ngroups] in H2, H3. rewrite ngroups_name_pat, ?ngroups_tag in H2, H3.
  apply matches_opt_part_lang in H2 as (t & -> & Ht & ->); [|exact ngroups_tag].
  apply matches_opt_part_lang in H3 as (d & -> & Hd & ->); [|exact ngroups_digest].
  apply matches_lang in H1.
  exists w1, t, d. split; [by destruct t, d|]. done.
Qed.

(** The two parts of a match of the anchored name pattern, each in the
    language of its pattern. *)
Lemma anchored_name_match_langs y c :
  fullmatch ANCHORED_NAME_REGEXP y = Some c ->
  exists dm p,
    c = [dm; Some p] /\
    (forall dv, dm = Some dv -> lang domain dv) /\
    lang (Seq name_pat (optional [repeated [literal "/"; name_pat]])) p.
Proof.
  intros H. apply fullmatch_sound in H.
  rewrite ngroups_anchored_name in H. rewrite anchored_name_shape in H.
  apply matches_Seq_inv in H as (w1 & w2 & c1 & -> & H1 & H2).
  apply matches_Cap_inv in H2 as (c2 & H2 & ->).
  assert (ngroups (Seq name_pat (optional [repeated [literal "/"; name_pat]])) = 0)
    as Hg by reflexivity.
  pose proof (matches_nocap _ _ _ _ _ H2 Hg) as ->.
  cbn [ngroups] in *. rewrite ngroups_domain in *.
  apply matches_lang in H2.
  apply matches_Alt_inv in H1 as [H1|H1].
  - apply matches_Seq_inv in H1 as (d & sl & c3 & -> & Hd & Hs).
    apply matches_Chr_inv in Hs as (a & -> & Ha & ->).
    apply matches_Cap_inv in Hd as (c4 & Hd & ->).
    pose proof (matches_nocap _ _ _ _ _ Hd ngroups_domain) as ->.
    apply matches_lang in Hd.
    exists (Some d), w2. split; [reflexivity|]. split; [|done].
    by intros dv [= <-].
  - apply matches_Eps_inv in H1 as [-> ->].
    exists None, w2. by split.
Qed.

(** The parts of a successful parse: the name, tag and digest the reference
    pattern captured, the domain and path the anchored name pattern captured
    in the name, and the reference built from them. *)
Lemma parse_ok_anatomy is_digest x r :
  parse is_digest x = Ok r ->
  exists nm t d dm p,
    x = nm ++ opt_part ":" t ++ opt_part "@" d /\
    nm = match dm with Some dv => dv ++ "/"%char :: p | None => p end /\
    fullmatch ANCHORED_NAME_REGEXP nm = Some [dm; Some p] /\
    dm <> Some [] /\
    length nm <= NameTotalLengthMax /\
    lang name_pat nm /\
    (forall tv, t = Some tv -> lang tag tv) /\
    (forall dv, d = Some dv -> lang DIGEST_REGEXP dv /\ is_digest dv = true) /\
    (forall dv, dm = Some dv -> lang domain dv) /\
    lang (Seq name_pat (optional [repeated [literal "/"; name_pat]])) p /\
    r = match d, t with
        | Some dv, Some tv => FullReference (default [] dm) p tv {| value := dv |}
        | Some dv, None => CanonicalReference (default [] dm) p {| value := dv |}
        | None, Some tv => TaggedReference (default [] dm) p tv
        | None, None => NamedReference (default [] dm) p
        end.
Proof.
  intros Hp.
  destruct (fullmatch REFERENCE_REGEXP x) as [c|] eqn:Hm.
  2:{ rewrite (parse_unmatched is_digest x Hm) in Hp.
      destruct (Py.eqb x (s "")); [done|]. by destruct (negb (islower x)). }
  destruct (reference_match _ _ Hm) as (nm & t & d & -> & Hx & Hl & Hnm & Ht & Hd).
  destruct (reference_match_langs _ _ Hm) as (nm' & t' & d' & Hc & _ & Hlt & Hld).
  injection Hc as <- <- <-.
  destruct (anchored_name_total nm Hl) as [c2 Hc2].
  destruct (anchored_name_match _ _ Hc2) as (dm & p & -> & Hy & Hdm).
  destruct (anchored_name_match_langs _ _ Hc2) as (dm' & p' & Hc' & Hldm & Hlp).
  injection Hc' as <- <-.
  pose proof (name_of_parts dm p nm Hy Hdm) as Hname.
  exists nm, t, d, dm, p.
  unfold parse, findall in Hp. rewrite Hm in Hp. cbn [groups fmap list_fmap nth] in Hp.
  change (default [] (Some nm)) with nm in Hp.
  destruct (Nat.ltb_spec NameTotalLengthMax (length nm)) as [?|Hlen]; [done|].
  rewrite Hc2 in Hp. cbn [groups fmap list_fmap] in Hp.
  change (default [] (Some p)) with p in Hp.
  unfold Reference_name in Hp; cbn [ref_domain ref_path] in Hp.
  rewrite Hname, (eqb_nil_false nm) in Hp by done.
  do 6 (split; [done|]). split; [done|].
  destruct t as [tv|], d as [dv|]; cbn [default id from_option] in *.
  all: rewrite ?(eqb_nil_false tv), ?(eqb_nil_false dv) in Hp by congruence.
  all: rewrite ?eqb_nil_true in Hp; cbn [negb] in Hp.
  all: rewrite ?(eqb_nil_false tv) in Hp by congruence.
  all: try (destruct (is_digest dv) eqn:Hdig; cbn [negb bind] in Hp; [|done]).
  all: cbn [bind] in Hp; injection Hp as <-.
  all: split; [|by split].
  all: try done.
  all: intros dv' [= <-]; split; [by apply Hld|done].
Qed.


Lemma parse_ok_name is_digest x r nm t d dm p :
  nm = match dm with Some dv => dv ++ "/"%char :: p | None => p end ->
  dm <> Some [] ->
  r = match d, t with
      | Some dv, Some tv => FullReference (default [] dm) p tv {| value := dv |}
      | Some dv, None => CanonicalReference (default [] dm) p {| value := dv |}
      | None, Some tv => TaggedReference (default [] dm) p tv
      | None, None => NamedReference (default [] dm) p
      end ->
  parse is_digest x = Ok r ->
  Reference_name r = nm /\ ref_domain r = default [] dm /\ ref_path r = p.
Proof.
  intros Hy Hdm -> _. pose proof (name_of_parts dm p nm Hy Hdm) as Hname.
  destruct d, t; unfold Reference_name; cbn [ref_domain ref_path]; by rewrite Hname.
Qed.

(** The text of a parsed reference is the text that was parsed. *)
Lemma parse_ok_to_str is_digest x r : parse is_digest x = Ok r -> to_str r = x.
Proof.
  intros Hp.
  destruct (parse_ok_anatomy is_digest x r Hp)
    as (nm & t & d & dm & p & Hx & Hy & _ & Hdm & _ & _ & _ & _ & _ & _ & Hr).
  destruct (parse_ok_name is_digest x r nm t d dm p Hy Hdm Hr Hp) as (Hn & Hd & Hpath).
  pose proof (name_of_parts dm p nm Hy Hdm) as Hname.
  rewrite Hx. subst r.
  destruct d, t; unfold to_str, Reference_name; cbn [ref_domain ref_path];
    rewrite ?Hname; cbn [opt_part value Digest_str]; rewrite ?app_nil_r; reflexivity.
Qed.

(** X1: a reference that [parse] returns has a path that is not empty and a
    name (domain, slash, path) of at most 255 characters, made of the
    characters of names; its domain has no slash; its name is where the
    parsed text starts; and [split_domain] of its name gives its domain and
    its path back. *)
Theorem parse_name_invariants (is_digest : list ascii -> bool) (x : list ascii)
    (r : Reference) :
  parse is_digest x = Ok r ->
  ref_path r <> [] /\
  length (Reference_name r) <= 255 /\
  forallb name_char (Reference_name r) = true /\
  contains "/" (ref_domain r) = false /\
  (exists rest, x = Reference_name r ++ rest) /\
  split_domain (Reference_name r) = Ok (ref_domain r, ref_path r).
Proof.
  intros Hp.
  destruct (parse_ok_anatomy is_digest x r Hp)
    as (nm & t & d & dm & p & Hx & Hy & Hc2 & Hdm & Hlen & Hl & _ & _ & Hld & Hlp & Hr).
  destruct (parse_ok_name is_digest x r nm t d dm p Hy Hdm Hr Hp) as (-> & -> & ->).
  split. { eapply lang_nonempty; [exact Hlp|reflexivity]. }
  split; [exact Hlen|].
  split. { eapply lang_within; [exact Hl|]. vm_compute. reflexivity. }
  split.
  { destruct dm as [dv|]; [|reflexivity]. cbn [default id from_option].
    assert (forallb (fun c => negb (Ascii.eqb "/" c)) dv = true) as Hno.
    { eapply lang_within; [by apply Hld|]. vm_compute. reflexivity. }
    unfold contains. apply not_true_is_false. intros He.
    apply existsb_exists in He as (c & Hc & Hc').
    rewrite forallb_forall in Hno. specialize (Hno c Hc). by rewrite Hc' in Hno. }
  split; [by eexists|].
  unfold split_domain, findall. by rewrite Hc2.
Qed.

(** The name of the reference of the text [a.com/foo:v1]. *)
Lemma parse_name_invariants_witness :
  ref_path (TaggedReference (s "a.com") (s "foo") (s "v1")) <> [] /\
  length (Reference_name (TaggedReference (s "a.com") (s "foo") (s "v1"))) <= 255 /\
  forallb name_char (Reference_name (TaggedReference (s "a.com") (s "foo") (s "v1"))) = true /\
  contains "/" (ref_domain (TaggedReference (s "a.com") (s "foo") (s "v1"))) = false /\
  (exists rest, s "a.com/foo:v1"
                = Reference_name (TaggedReference (s "a.com") (s "foo") (s "v1")) ++ rest) /\
  split_domain (Reference_name (TaggedReference (s "a.com") (s "foo") (s "v1")))
  = Ok (ref_domain (TaggedReference (s "a.com") (s "foo") (s "v1")),
        ref_path (TaggedReference (s "a.com") (s "foo") (s "v1"))).
Proof.
  apply (parse_name_invariants (fun _ => true) (s "a.com/foo:v1")). reflexivity.
Defined.

(** X2: the tag of a reference that [parse] returns has between 1 and 128
    characters, each a letter, a digit, an underscore, a dot or a hyphen. *)
Theorem parse_tag_invariants (is_digest : list ascii -> bool) (x : list ascii)
    (r : Reference) (tag : list ascii) :
  parse is_digest x = Ok r ->
  ref_tag r = Some tag ->
  1 <= length tag <= 128 /\ forallb tag_char tag = true.
Proof.
  intros Hp Htag.
  destruct (parse_ok_anatomy is_digest x r Hp)
    as (nm & t & d & dm & p & _ & _ & _ & _ & _ & _ & Hlt & _ & _ & _ & Hr).
  assert (t = Some tag) as ->.
  { subst r. destruct d, t; cbn [ref_tag] in Htag; congruence. }
  specialize (Hlt tag eq_refl).
  split.
  - apply lang_Seq_inv in Hlt as (w1 & w2 & -> & H1 & H2).
    apply lang_Chr_inv in H1 as (a & -> & _).
    apply lang_upto_length in H2. simpl. lia.
  - eapply lang_within; [exact Hlt|]. vm_compute. reflexivity.
Qed.

(** The tag of the reference of the text [a.com/foo:v1]. *)
Lemma parse_tag_invariants_witness :
  1 <= length (s "v1") <= 128 /\ forallb tag_char (s "v1") = true.
Proof.
  apply (parse_tag_invariants (fun _ => true) (s "a.com/foo:v1")
           (TaggedReference (s "a.com") (s "foo") (s "v1")) (s "v1")); reflexivity.
Defined.

End anatomy.

(** ** More on parse and on the normalized names *)
Section parse_more.
Import Py Re utlis reference Props.

Lemma lang_Star_within q r w :
  lang (Star r) w -> classes_within q r = true -> forallb q w = true.
Proof. intros H Hq. by apply (lang_within q (Star r)). Qed.

(** X3: the digest of a reference that [parse] returns is accepted by
    [Digest.is_digest], and is an algorithm, a colon and at least 32
    hexadecimal digits. *)
Theorem parse_digest_invariants (is_digest : list ascii -> bool) (x : list ascii)
    (r : Reference) (digest : Digest) :
  parse is_digest x = Ok r ->
  ref_digest r = Some digest ->
  is_digest (value digest) = true /\
  exists algorithm hex,
    value digest = algorithm ++ s ":" ++ hex /\
    algorithm <> [] /\ forallb algorithm_char algorithm = true /\
    32 <= length hex /\ forallb xdigit hex = true.
Proof.
  intros Hp Hdg.
  destruct (parse_ok_anatomy is_digest x r Hp)
    as (nm & t & d & dm & p & _ & _ & _ & _ & _ & _ & _ & Hld & _ & _ & Hr).
  assert (d = Some (value digest)) as ->.
  { subst r. destruct d, t; cbn [ref_digest] in Hdg; by simplify_eq. }
  destruct (Hld _ eq_refl) as [Hl Hid]. split; [done|].
  unfold DIGEST_REGEXP in Hl.
  apply lang_Seq_inv in Hl as (w0 & v0 & -> & H0 & Hl).
  apply lang_Seq_inv in Hl as (w1 & v1 & -> & H1 & Hl).
  apply lang_Seq_inv in Hl as (w2 & v2 & -> & H2 & Hl).
  apply lang_Seq_inv in Hl as (w3 & hex & -> & H3 & Hhex).
  apply lang_Chr_inv in H0 as (a & -> & Ha).
  apply lang_Chr_inv in H3 as (c & -> & Hc).
  unfold one_of in Hc. simpl in Hc. rewrite orb_false_r in Hc.
  apply Ascii.eqb_eq in Hc as ->.
  exists ([a] ++ w1 ++ w2), hex. split; [by rewrite <- !app_assoc|].
  split; [done|]. split.
  { rewrite !forallb_app. simpl.
    rewrite (lang_Star_within algorithm_char _ _ H1) by (vm_compute; reflexivity).
    rewrite (lang_Star_within algorithm_char _ _ H2) by (vm_compute; reflexivity).
    unfold algorithm_char, alnum. unfold alpha in Ha.
    apply orb_true_iff in Ha as [-> | ->]; by rewrite ?orb_true_r. }
  split; [by apply lang_atleast_length in Hhex|].
  eapply lang_within; [exact Hhex|]. vm_compute. reflexivity.
Qed.

Lemma parse_digest_invariants_witness :
  (fun _ : list ascii => true) (s "sha256:0123456789abcdef0123456789abcdef") = true /\
  exists algorithm hex,
    s "sha256:0123456789abcdef0123456789abcdef" = algorithm ++ s ":" ++ hex /\
    algorithm <> [] /\ forallb algorithm_char algorithm = true /\
    32 <= length hex /\ forallb xdigit hex = true.
Proof.
  apply (parse_digest_invariants (fun _ => true)
           (s "foo@sha256:0123456789abcdef0123456789abcdef")
           (CanonicalReference (s "") (s "foo")
              {| value := s "sha256:0123456789abcdef0123456789abcdef" |})
           {| value := s "sha256:0123456789abcdef0123456789abcdef" |}); reflexivity.
Defined.

(** X4: on an ASCII text [parse] never returns a digest-only reference,
    and the errors it raises are these: [ErrNameEmpty] for the empty text
    only; [ErrNameContainsUppercase] and [ErrReferenceInvalidFormat] for a
    text that does not match, by [islower]; [ErrNameTooLong]; and the
    exception for a digest that [Digest.is_digest] refuses.  It raises no
    [IndexError]. *)
Theorem parse_outcomes (is_digest : list ascii -> bool) (x : list ascii) :
  isascii x = true ->
  match parse is_digest x with
  | Ok r => forall digest, r <> DigestReference digest
  | Raise e =>
      (e = ErrNameEmpty /\ x = []) \/
      (e = ErrNameContainsUppercase /\ x <> [] /\ islower x = false /\
       fullmatch REFERENCE_REGEXP x = None) \/
      (e = ErrReferenceInvalidFormat /\ islower x = true /\
       fullmatch REFERENCE_REGEXP x = None) \/
      (e = ErrNameTooLong /\ 255 < length x) \/
      (exists dv, e = Exception (s "invalid digest format: " ++ dv) /\
                  is_digest dv = false)
  end.
Proof.
  intros _.
  destruct (fullmatch REFERENCE_REGEXP x) as [c|] eqn:Hm.
  - destruct (parse_matched is_digest x c Hm)
      as (nm & t & d & dm & p & _ & Hx & _ & _ & _ & _ & _ & ->).
    destruct (Nat.ltb_spec NameTotalLengthMax (length nm)) as [Hlen|_].
    { right. right. right. left. split; [done|].
      rewrite Hx, length_app. unfold NameTotalLengthMax in Hlen. lia. }
    destruct d as [dv|].
    + destruct (is_digest dv) eqn:Hid.
      * destruct t; intros digest; discriminate.
      * do 4 right. by exists dv.
    + destruct t; intros digest; discriminate.
  - rewrite (parse_unmatched is_digest x Hm).
    destruct x as [|a x]; [by left|].
    rewrite (eqb_nil_false (a :: x)) by done.
    destruct (islower (a :: x)) eqn:Hl; cbn [negb].
    + right. right. left. done.
    + right. left. done.
Qed.

(** The text of a lowercase word, a space and another word: it does not
    match and is reported as an invalid format. *)
Lemma parse_outcomes_witness :
  match parse (fun _ => true) (s "foo bar") with
  | Ok r => forall digest, r <> DigestReference digest
  | Raise e =>
      (e = ErrNameEmpty /\ s "foo bar" = []) \/
      (e = ErrNameContainsUppercase /\ s "foo bar" <> [] /\ islower (s "foo bar") = false /\
       fullmatch REFERENCE_REGEXP (s "foo bar") = None) \/
      (e = ErrReferenceInvalidFormat /\ islower (s "foo bar") = true /\
       fullmatch REFERENCE_REGEXP (s "foo bar") = None) \/
      (e = ErrNameTooLong /\ 255 < length (s "foo bar")) \/
      (exists dv, e = Exception (s "invalid digest format: " ++ dv) /\
                  (fun _ : list ascii => true) dv = false)
  end.
Proof. apply (parse_outcomes (fun _ => true) (s "foo bar")). reflexivity. Defined.

End parse_more.

(** ** The normal form of a name *)
Section normal_form.
Import Py Re utlis reference Props.

Lemma find_take_no_sep c x : forall i,
  find c x = Some i -> contains c (take i x) = false.
Proof.
  unfold contains. induction x as [|a x IH]; intros i; simpl; [done|].
  destruct (Ascii.eqb a c) eqn:Hac.
  - by intros [= <-].
  - destruct (find c x) as [j|]; [|done]. intros [= <-]. simpl.
    rewrite Ascii.eqb_sym, Hac. simpl. by apply IH.
Qed.

Lemma find_app_sep c d r :
  contains c d = false -> find c (d ++ c :: r) = Some (length d).
Proof.
  unfold contains. induction d as [|a d IH]; simpl; intros H.
  - by rewrite Ascii.eqb_refl.
  - apply orb_false_iff in H as [Hac H]. rewrite Ascii.eqb_sym, Hac.
    by rewrite IH.
Qed.

Lemma drop_after_sep (d : list ascii) a r : drop (S (length d)) (d ++ a :: r) = r.
Proof.
  rewrite cons_middle, app_assoc. apply drop_app_length'.
  rewrite length_app. simpl. lia.
Qed.

(** What [split_docker_domain] returns: either the default host, with a
    path that has a slash, or a prefix of the name before its first slash
    that is a host of its own. *)
Lemma split_docker_domain_cases name :
  (fst (split_docker_domain name) = DEFAULT_REGISTRY_HOST /\
   contains "/" (snd (split_docker_domain name)) = true) \/
  (exists index,
     find "/" name = Some index /\
     fst (split_docker_domain name) = take index name /\
     snd (split_docker_domain name) = drop (S index) name /\
     take index name <> DEFAULT_REGISTRY_HOST /\
     take index name <> s "index.docker.io" /\
     bool_decide (findall_class (one_of ".:") (take index name) = [])
     && negb (Py.eqb (take index name) (s "localhost")) = false).
Proof.
  unfold split_docker_domain.
  destruct (find "/" name) as [index|] eqn:Hf.
  - destruct (bool_decide (findall_class (one_of ".:") (take index name) = [])
              && negb (Py.eqb (take index name) (s "localhost"))) eqn:Hc.
    + left. change (Py.eqb DEFAULT_REGISTRY_HOST (s "index.docker.io")) with false.
      cbv iota.
      change (Py.eqb DEFAULT_REGISTRY_HOST DEFAULT_REGISTRY_HOST) with true.
      pose proof (find_Some_contains _ _ _ Hf) as Hcn.
      rewrite Hcn. cbn [negb andb fst snd]. by split.
    + rewrite Nat.add_1_r. cbv beta iota.
      destruct (Py.eqb (take index name) (s "index.docker.io")) eqn:Hi.
      * left.
        change (Py.eqb DEFAULT_REGISTRY_HOST DEFAULT_REGISTRY_HOST) with true.
        destruct (contains "/" (drop (S index) name)) eqn:Hr; cbn [negb andb fst snd].
        -- by split.
        -- split; [done|]. reflexivity.
      * destruct (Py.eqb (take index name) DEFAULT_REGISTRY_HOST) eqn:Hd.
        -- left. unfold Py.eqb in Hd. apply bool_decide_eq_true_1 in Hd.
           destruct (contains "/" (drop (S index) name)) eqn:Hr; cbn [negb andb fst snd].
           ++ by split.
           ++ split; [done|]. reflexivity.
        -- right. exists index. cbn [andb fst snd].
           unfold Py.eqb in Hi, Hd.
           apply bool_decide_eq_false_1 in Hi. apply bool_decide_eq_false_1 in Hd.
           done.
  - left. change (Py.eqb DEFAULT_REGISTRY_HOST (s "index.docker.io")) with false.
    cbv iota.
    change (Py.eqb DEFAULT_REGISTRY_HOST DEFAULT_REGISTRY_HOST) with true.
    rewrite (find_None_contains _ _ Hf). cbn [negb andb fst snd]. by split.
Qed.

Lemma not_under_default_nonempty x :
  bool_decide (findall_class (one_of ".:") x = [])
  && negb (Py.eqb x (s "localhost")) = false ->
  x <> [].
Proof. by intros H ->. Qed.

(** The host and the path that [split_docker_domain] returns, and what it
    makes of them again. *)
Lemma split_docker_domain_facts (name : list ascii) :
  fst (split_docker_domain name) <> [] /\
  contains "/" (fst (split_docker_domain name)) = false /\
  fst (split_docker_domain name) <> s "index.docker.io" /\
  (fst (split_docker_domain name) = DEFAULT_REGISTRY_HOST ->
   contains "/" (snd (split_docker_domain name)) = true) /\
  split_docker_domain
    (fst (split_docker_domain name) ++ s "/" ++ snd (split_docker_domain name))
  = split_docker_domain name.
Proof.
  destruct (split_docker_domain_cases name)
    as [[Hd Hr]|(index & Hf & Hd & Hr & Hnd & Hni & Hc)].
  - destruct (split_docker_domain name) as [d r]. cbn [fst snd] in *. subst d.
    split; [done|]. split; [reflexivity|]. split; [done|]. split; [done|].
    unfold split_docker_domain.
    change (s "/" ++ r) with ("/"%char :: r).
    rewrite (find_app_sep "/" DEFAULT_REGISTRY_HOST r eq_refl).
    rewrite take_app_length.
    replace (length DEFAULT_REGISTRY_HOST + 1) with (S (length DEFAULT_REGISTRY_HOST))
      by lia.
    rewrite drop_after_sep.
    assert (bool_decide (findall_class (one_of ".:") DEFAULT_REGISTRY_HOST = [])
            && negb (Py.eqb DEFAULT_REGISTRY_HOST (s "localhost")) = false) as ->
      by reflexivity.
    change (Py.eqb DEFAULT_REGISTRY_HOST (s "index.docker.io")) with false. cbv iota.
    change (Py.eqb DEFAULT_REGISTRY_HOST DEFAULT_REGISTRY_HOST) with true.
    by rewrite Hr.
  - pose proof (find_take_no_sep "/" name index Hf) as Hns.
    destruct (split_docker_domain name) as [d r]. cbn [fst snd] in *. subst d r.
    split; [by apply not_under_default_nonempty|].
    split; [done|]. split; [done|]. split; [done|].
    unfold split_docker_domain.
    change (s "/" ++ drop (S index) name) with ("/"%char :: drop (S index) name).
    rewrite (find_app_sep "/" (take index name) (drop (S index) name) Hns).
    rewrite take_app_length.
    replace (length (take index name) + 1) with (S (length (take index name))) by lia.
    rewrite drop_after_sep.
    rewrite Hc. simpl drop.
    unfold Py.eqb. rewrite !bool_decide_eq_false_2 by done. reflexivity.
Qed.

(** X5: the host that [split_docker_domain] returns is not empty, has no
    slash and is never the alias [index.docker.io]; on the default host the
    path has a slash; and splitting the host, a slash and the path again
    gives the same host and path. *)
Theorem split_docker_domain_normal_form (name : list ascii) :
  fst (split_docker_domain name) <> [] /\
  contains "/" (fst (split_docker_domain name)) = false /\
  fst (split_docker_domain name) <> s "index.docker.io" /\
  (fst (split_docker_domain name) = DEFAULT_REGISTRY_HOST ->
   contains "/" (snd (split_docker_domain name)) = true) /\
  split_docker_domain
    (fst (split_docker_domain name) ++ s "/" ++ snd (split_docker_domain name))
  = split_docker_domain name.
Proof. exact (split_docker_domain_facts name). Qed.

End normal_form.

(** ** parse_normalized_named *)
Section normalized_more.
Import Py Re utlis reference Props.

Lemma sep_prefix_unique c (d1 d2 r1 r2 : list ascii) :
  contains c d1 = false -> contains c d2 = false ->
  d1 ++ c :: r1 = d2 ++ c :: r2 -> d1 = d2 /\ r1 = r2.
Proof.
  intros H1 H2 He.
  pose proof (find_app_sep c d1 r1 H1) as F1.
  pose proof (find_app_sep c d2 r2 H2) as F2.
  rewrite He, F2 in F1. injection F1 as Hl.
  apply app_inj_1 in He as [-> [= ->]]; done.
Qed.

Lemma identifier_match_chars x c :
  fullmatch IDENTIFIER_REGEXP x = Some c -> forallb lower_xdigit x = true.
Proof.
  intros H. apply fullmatch_sound, matches_lang in H.
  eapply lang_within; [exact H|]. vm_compute. reflexivity.
Qed.

Lemma identifier_no_slash (d r : list ascii) :
  fullmatch IDENTIFIER_REGEXP (d ++ s "/" ++ r) = None.
Proof.
  destruct (fullmatch IDENTIFIER_REGEXP (d ++ s "/" ++ r)) as [c|] eqn:H; [|done].
  apply identifier_match_chars in H. rewrite forallb_app in H.
  apply andb_true_iff in H as [_ H]. done.
Qed.

(** The domain of a parsed reference, when it has one, is the text before
    the first slash. *)
Lemma parse_ok_domain is_digest (d rem : list ascii) r :
  contains "/" d = false ->
  parse is_digest (d ++ s "/" ++ rem) = Ok r ->
  ref_domain r = d \/ ref_domain r = [].
Proof.
  intros Hd Hp.
  destruct (parse_ok_anatomy is_digest _ r Hp)
    as (nm & t & dg & dm & p & Hx & Hy & _ & Hdm & _ & _ & _ & _ & Hld & _ & Hr).
  destruct (parse_ok_name is_digest _ r nm t dg dm p Hy Hdm Hr Hp) as (_ & -> & _).
  destruct dm as [dv|]; [left|by right]. cbn [default id from_option].
  assert (contains "/" dv = false) as Hno.
  { assert (forallb (fun c => negb (Ascii.eqb "/" c)) dv = true) as Hno.
    { eapply lang_within; [by apply Hld|]. vm_compute. reflexivity. }
    unfold contains. apply not_true_is_false. intros He.
    apply existsb_exists in He as (c & Hc & Hc').
    rewrite forallb_forall in Hno. specialize (Hno c Hc). by rewrite Hc' in Hno. }
  subst nm. rewrite <- app_assoc in Hx. cbn [app] in Hx.
  change (s "/" ++ rem) with ("/"%char :: rem) in Hx.
  by destruct (sep_prefix_unique _ _ _ _ _ Hd Hno Hx) as [-> _].
Qed.

(** X6: the reference that [parse_normalized_named] returns reads as the
    host and the path of [split_docker_domain] with a slash between them;
    its domain is that host, or empty; and normalising its text again gives
    the same reference. *)
Theorem parse_normalized_named_normal (is_digest : list ascii -> bool)
    (name : list ascii) (r : Reference) :
  parse_normalized_named is_digest name = Ok r ->
  to_str r = fst (split_docker_domain name) ++ s "/" ++ snd (split_docker_domain name) /\
  (ref_domain r = fst (split_docker_domain name) \/ ref_domain r = []) /\
  parse_normalized_named is_digest (to_str r) = Ok r.
Proof.
  intros H. unfold parse_normalized_named in H.
  destruct (bool_decide (is_Some (fullmatch IDENTIFIER_REGEXP name))); [done|].
  destruct (split_docker_domain_facts name) as (_ & Hns & _ & _ & Hagain).
  destruct (split_docker_domain name) as [d rem] eqn:Hs. cbn [fst snd] in *.
  destruct (negb (islower (if bool_decide (is_Some (find ":" rem))
                           then partition_head ":" rem else rem))) eqn:Hlow; [done|].
  pose proof (parse_ok_to_str is_digest _ r H) as Ht.
  split; [done|]. split; [by eapply parse_ok_domain|].
  rewrite Ht. unfold parse_normalized_named.
  rewrite identifier_no_slash.
  rewrite bool_decide_eq_false_2 by (by intros [? ?]).
  rewrite Hagain. by rewrite Hlow.
Qed.

(** The reference of [hello-world:latest]. *)
Lemma parse_normalized_named_normal_witness :
  to_str (TaggedReference (s "registry-1.docker.io") (s "library/hello-world") (s "latest"))
  = fst (split_docker_domain (s "hello-world:latest")) ++ s "/"
    ++ snd (split_docker_domain (s "hello-world:latest")) /\
  (ref_domain (TaggedReference (s "registry-1.docker.io") (s "library/hello-world")
                 (s "latest"))
   = fst (split_docker_domain (s "hello-world:latest")) \/
   ref_domain (TaggedReference (s "registry-1.docker.io") (s "library/hello-world")
                 (s "latest")) = []) /\
  parse_normalized_named (fun _ => true)
    (to_str (TaggedReference (s "registry-1.docker.io") (s "library/hello-world")
               (s "latest")))
  = Ok (TaggedReference (s "registry-1.docker.io") (s "library/hello-world") (s "latest")).
Proof.
  apply (parse_normalized_named_normal (fun _ => true) (s "hello-world:latest")).
  vm_compute. reflexivity.
Defined.

(** A host that is no domain of the grammar is left out of the domain of
    the reference: it is read as the first component of the path. *)
Lemma parse_normalized_named_host_in_path :
  split_docker_domain (s "a_b.c/foo") = (s "a_b.c", s "foo") /\
  parse_normalized_named (fun _ => true) (s "a_b.c/foo")
  = Ok (NamedReference (s "") (s "a_b.c/foo")).
Proof. split; vm_compute; reflexivity. Qed.

End normalized_more.

(** ** Chain IDs over prefixes *)
Section chain_more.
Import Py utlis Props.

Lemma get_chain_id_concat a : forall parent b,
  get_chain_id parent (a ++ b) = get_chain_id (get_chain_id parent a) b.
Proof.
  induction a as [|id0 a IH]; intros parent b; cbn [get_chain_id app]; [done|].
  destruct (Py.eqb parent (s "")); apply IH.
Qed.

Lemma chain_prefix rest : forall prev i,
  i < length rest ->
  chain prev rest !! i = Some (get_chain_id prev (take (S i) rest)).
Proof.
  induction rest as [|d rest IH]; intros prev i Hi; simpl in Hi; [lia|].
  destruct i as [|i]; [done|].
  change (chain prev (d :: rest) !! S i) with (chain (get_chain_id prev [d]) rest !! i).
  rewrite IH by lia.
  change (take (S (S i)) (d :: rest)) with ([d] ++ take (S i) rest).
  by rewrite get_chain_id_concat.
Qed.

(** X7: the chain ID of a list of diff IDs that is put together from two
    lists is the chain ID of the second list with the chain ID of the first
    as its parent. *)
Theorem get_chain_id_app (parent : list ascii) (a b : list (list ascii)) :
  get_chain_id parent (a ++ b) = get_chain_id (get_chain_id parent a) b.
Proof. exact (get_chain_id_concat a parent b). Qed.

(** X8: the list that [diff_ids_to_chain_ids] returns is as long as the
    list of diff IDs, and its element at each position is [get_chain_id]
    of the diff IDs up to that position, with the empty parent. *)
Theorem diff_ids_to_chain_ids_prefixes (diff_ids result : list (list ascii)) :
  diff_ids_to_chain_ids diff_ids = Ok result ->
  length result = length diff_ids /\
  forall i, i < length diff_ids ->
    result !! i = Some (get_chain_id (s "") (take (S i) diff_ids)).
Proof.
  destruct diff_ids as [|d0 rest]; [done|].
  rewrite diff_ids_to_chain_ids_eq. intros [= <-].
  split; [simpl; by rewrite chain_length|].
  intros [|i] Hi; [done|]. simpl in Hi.
  change ((d0 :: chain d0 rest) !! S i) with (chain d0 rest !! i).
  rewrite chain_prefix by lia. reflexivity.
Qed.

(** The chain IDs of the diff IDs [a] and [b]. *)
Lemma diff_ids_to_chain_ids_prefixes_witness :
  length [s "a"; chain_step (s "a") (s "b")] = length [s "a"; s "b"] /\
  forall i, i < length [s "a"; s "b"] ->
    [s "a"; chain_step (s "a") (s "b")] !! i
    = Some (get_chain_id (s "") (take (S i) [s "a"; s "b"])).
Proof.
  apply (diff_ids_to_chain_ids_prefixes [s "a"; s "b"]). reflexivity.
Defined.

End chain_more.

(** ** What filter returns *)
Section filter_more.
Import Py utlis.

Lemma filter_loop_inv ms : forall target,
  match filter_loop ms target with
  | Ok m =>
      exists pre post,
        ms = pre ++ m :: post /\ platform m = Some target /\
        forall m', m' ∈ pre -> platform m' <> Some target
  | Raise e =>
      e = Exception (s "Not Found Matching image") /\
      forall m, m ∈ ms -> platform m <> Some target
  end.
Proof.
  induction ms as [|m0 ms IH]; intros target; simpl.
  - split; [done|]. intros m Hm. by apply elem_of_nil in Hm.
  - case_bool_decide as Hm0.
    + exists [], ms. split; [done|]. split; [done|].
      intros m' Hm'. by apply elem_of_nil in Hm'.
    + specialize (IH target). destruct (filter_loop ms target) as [m|e].
      * destruct IH as (pre & post & -> & Hm & Hpre).
        exists (m0 :: pre), post. split; [done|]. split; [done|].
        intros m' [->|Hm']%elem_of_cons; [done|by apply Hpre].
      * destruct IH as [-> Hall]. split; [done|].
        intros m [->|Hm]%elem_of_cons; [done|by apply Hall].
Qed.

(** X9: a digest that [filter] returns is the digest of an entry whose
    platform is the target, and no entry before it has that platform; the
    only exception it raises is the one for no matching entry, and then no
    entry has the target platform.  An entry without a platform is never
    selected. *)
Theorem filter_outcomes (self : ManifestsListResp) (target : Platform) :
  match filter self target with
  | Ok d =>
      exists pre m post,
        manifests self = pre ++ m :: post /\
        platform m = Some target /\ digest m = d /\
        forall m', m' ∈ pre -> platform m' <> Some target
  | Raise e =>
      e = Exception (s "Not Found Matching image") /\
      forall m, m ∈ manifests self -> platform m <> Some target
  end.
Proof.
  unfold filter. pose proof (filter_loop_inv (manifests self) target) as H.
  destruct (filter_loop (manifests self) target) as [m|e]; simpl; [|done].
  destruct H as (pre & post & Hms & Hm & Hpre). by exists pre, m, post.
Qed.

End filter_more.

(** ** split, join and strip *)
Section text_facts.
Import Py Props.

Lemma split_nonempty c x : split c x <> [].
Proof.
  destruct x as [|a x]; simpl; [done|].
  destruct (Ascii.eqb a c); [done|]. by destruct (split c x).
Qed.

Lemma split_length c x : length (split c x) = S (count c x).
Proof.
  unfold count. induction x as [|a x IH]; simpl; [done|].
  rewrite (Ascii.eqb_sym c a).
  destruct (Ascii.eqb a c); simpl; [by rewrite IH|].
  destruct (split c x) as [|w ws] eqn:Hs; [by apply split_nonempty in Hs|].
  exact IH.
Qed.

Lemma join_split c x : join [c] (split c x) = x.
Proof.
  induction x as [|a x IH]; simpl; [done|].
  destruct (split c x) as [|w ws] eqn:Hs; [by apply split_nonempty in Hs|].
  destruct (Ascii.eqb a c) eqn:Hac.
  - apply Ascii.eqb_eq in Hac as ->. rewrite <- IH. by destruct ws.
  - rewrite <- IH. by destruct ws.
Qed.

Lemma split_parts_no_sep c x : Forall (fun w => contains c w = false) (split c x).
Proof.
  induction x as [|a x IH]; simpl.
  - by constructor.
  - destruct (Ascii.eqb a c) eqn:Hac.
    + by constructor.
    + destruct (split c x) as [|w ws]; [repeat constructor|].
      * unfold contains. simpl. by rewrite Ascii.eqb_sym, Hac.
      * inversion IH as [|? ? Hw Hws]; subst. constructor; [|done].
        unfold contains in *. simpl. by rewrite Ascii.eqb_sym, Hac.
Qed.

Lemma split_no_sep c x : contains c x = false -> split c x = [x].
Proof.
  unfold contains. induction x as [|a x IH]; simpl; [done|].
  intros [Hac Hx]%orb_false_iff. rewrite Ascii.eqb_sym, Hac. by rewrite IH.
Qed.

Lemma split_app_sep c a b :
  contains c a = false -> split c (a ++ c :: b) = a :: split c b.
Proof.
  unfold contains. induction a as [|a0 a IH]; simpl.
  - intros _. by rewrite Ascii.eqb_refl.
  - intros [Hac Ha]%orb_false_iff. rewrite Ascii.eqb_sym, Hac. by rewrite IH.
Qed.

Lemma contains_app c a b : contains c (a ++ b) = contains c a || contains c b.
Proof. apply existsb_app. Qed.

Lemma lstrip_head c x : head (lstrip c x) <> Some c.
Proof.
  induction x as [|a x IH]; simpl; [done|].
  destruct (Ascii.eqb a c) eqn:Hac; [done|]. simpl. intros [= ->].
  by rewrite Ascii.eqb_refl in Hac.
Qed.

Lemma lstrip_last c x a : last (lstrip c x) = Some a -> last x = Some a.
Proof.
  induction x as [|b x IH]; simpl; [done|].
  destruct (Ascii.eqb b c); [|done].
  intros H. specialize (IH H). destruct x; [done|]. exact IH.
Qed.

Lemma lstrip_no_head c x : head x <> Some c -> lstrip c x = x.
Proof.
  destruct x as [|a x]; simpl; [done|].
  destruct (Ascii.eqb a c) eqn:Hac; [|done].
  apply Ascii.eqb_eq in Hac as ->. by intros [].
Qed.

Lemma rev_reverse (x : list ascii) : rev x = reverse x.
Proof. apply rev_alt. Qed.

(** What [strip] returns neither starts nor ends with the stripped
    character. *)
Lemma strip_ends c x : head (strip c x) <> Some c /\ last (strip c x) <> Some c.
Proof.
  unfold strip. split.
  - rewrite rev_reverse, head_reverse. intros H. apply lstrip_last in H.
    rewrite rev_reverse, last_reverse in H. by apply lstrip_head in H.
  - rewrite rev_reverse, last_reverse. apply lstrip_head.
Qed.

Lemma contains_head c x : contains c x = false -> head x <> Some c.
Proof.
  destruct x as [|a x]; [done|]. unfold contains. simpl.
  intros [H _]%orb_false_iff [= ->]. by rewrite Ascii.eqb_refl in H.
Qed.

Lemma contains_rev c x : contains c (rev x) = contains c x.
Proof.
  unfold contains. induction x as [|a x IH]; [done|]. simpl.
  rewrite existsb_app, IH. simpl. rewrite orb_false_r. apply orb_comm.
Qed.

Lemma contains_cons c a x : contains c (a :: x) = Ascii.eqb c a || contains c x.
Proof. reflexivity. Qed.

Lemma contains_in_quotes ch v :
  contains ch v = false -> ch <> dquote -> contains ch (in_quotes v) = false.
Proof.
  intros Hv Hne. unfold in_quotes.
  rewrite contains_cons, contains_app, Hv, contains_cons.
  assert (Ascii.eqb ch dquote = false) as -> by (by apply Ascii.eqb_neq). done.
Qed.

Lemma strip_quoted c r : contains c r = false -> strip c (c :: r ++ [c]) = r.
Proof.
  intros H. unfold strip. cbn [lstrip]. rewrite Ascii.eqb_refl.
  destruct r as [|a r].
  - simpl. by rewrite Ascii.eqb_refl.
  - rewrite (lstrip_no_head c ((a :: r) ++ [c])) by (by apply contains_head in H).
    rewrite rev_app_distr. cbn [rev app lstrip]. rewrite Ascii.eqb_refl.
    rewrite lstrip_no_head.
    + change (rev r ++ [a]) with (rev (a :: r)). apply rev_involutive.
    + apply contains_head. change (rev r ++ [a]) with (rev (a :: r)).
      by rewrite contains_rev.
Qed.

Lemma strip_in_quotes r : contains dquote r = false -> strip dquote (in_quotes r) = r.
Proof. apply strip_quoted. Qed.

Lemma plain_contains x :
  plain x = true ->
  contains " " x = false /\ contains "," x = false /\
  contains "=" x = false /\ contains dquote x = false.
Proof.
  unfold plain, contains. induction x as [|a x IH]; cbn [forallb existsb]; [done|].
  intros [Ha Hx]%andb_true_iff. destruct (IH Hx) as (-> & -> & -> & ->).
  unfold one_of in Ha. cbn [list_ascii_of_string existsb] in Ha.
  rewrite !(Ascii.eqb_sym _ a).
  apply negb_true_iff in Ha. rewrite !orb_false_iff in Ha.
  destruct Ha as [(-> & -> & -> & _) ->]. done.
Qed.

End text_facts.

(** ** PingResp *)
Section ping_facts.
Import Py utlis Props.

Lemma dict_of_params_raises params : forall d e,
  dict_of_params params d = Raise e -> e = ValueError.
Proof.
  induction params as [|q qs IH]; intros d e H; simpl in H; [done|].
  destruct (split "=" q) as [|k [|v [|? ?]]]; try by injection H.
  by apply (IH _ _ H).
Qed.

Lemma ChallengeScheme_of_value scheme c :
  ChallengeScheme_of scheme = Ok c -> scheme = scheme_value c.
Proof.
  unfold ChallengeScheme_of, Py.eqb. repeat case_bool_decide; by intros [= <-].
Qed.

(** X10: a challenge in which the number of spaces is not one is refused
    with [ValueError]: the header must be a scheme, one space, and
    parameters without a space. *)
Theorem PingResp_init_spaces (hdr : list ascii) :
  count " " hdr <> 1 -> PingResp_init hdr = Raise ValueError.
Proof.
  intros H. unfold PingResp_init.
  pose proof (split_length " " hdr) as Hl.
  destruct (split " " hdr) as [|a [|b [|? ?]]]; try done.
  simpl in Hl. lia.
Qed.

(** A realm of two words. *)
Lemma PingResp_init_spaces_witness :
  PingResp_init (s "Basic realm=" ++ [dquote] ++ s "Registry Realm" ++ [dquote])
  = Raise ValueError.
Proof.
  apply (PingResp_init_spaces
           (s "Basic realm=" ++ [dquote] ++ s "Registry Realm" ++ [dquote])).
  vm_compute. lia.
Defined.

(** X11: a [PingResp] that is built keeps the header; the header is the
    value of its scheme, a space, and parameters without a space; and its
    realm and its service neither start nor end with a double quote.  The
    exceptions of building one are [ValueError] and [AttributeError]. *)
Theorem PingResp_init_outcomes (hdr : list ascii) :
  match PingResp_init hdr with
  | Ok p =>
      headers p = hdr /\
      (exists params,
         hdr = scheme_value (scheme p) ++ s " " ++ params /\
         contains " " params = false) /\
      bare (realm p) /\ bare (service p)
  | Raise e => e = ValueError \/ e = AttributeError
  end.
Proof.
  unfold PingResp_init.
  pose proof (join_split " " hdr) as Hj.
  pose proof (split_parts_no_sep " " hdr) as Hn.
  destruct (split " " hdr) as [|sch [|params [|? ?]]]; try by left.
  destruct (dict_of_params (split "," params) ∅) as [d|e] eqn:Hd; cbn [bind].
  2:{ left. by apply dict_of_params_raises in Hd. }
  destruct (ChallengeScheme_of sch) as [c|e] eqn:Hc; cbn [bind].
  2:{ left. unfold ChallengeScheme_of in Hc.
      repeat (destruct (Py.eqb _ _); [done|]). by injection Hc. }
  destruct (d !! s "realm") as [rlm|]; [|by right].
  destruct (d !! s "service") as [svc|]; [|by right].
  cbn [headers scheme realm service].
  split; [done|]. split.
  - exists params. apply ChallengeScheme_of_value in Hc as <-.
    split; [by rewrite <- Hj|].
    inversion Hn as [|? ? _ Hn']; subst. by inversion Hn'.
  - split; apply strip_ends.
Qed.

(** X12: the challenge text made of a scheme, a realm and a service that
    have no space, comma, equals sign or double quote is read back as that
    scheme, realm and service. *)
Theorem PingResp_init_challenge_text (c : ChallengeScheme) (rlm svc : list ascii) :
  plain rlm = true -> plain svc = true ->
  PingResp_init (challenge_text c rlm svc)
  = Ok {| headers := challenge_text c rlm svc; scheme := c;
          realm := rlm; service := svc |}.
Proof.
  intros (Hr1 & Hr2 & Hr3 & Hr4)%plain_contains (Hs1 & Hs2 & Hs3 & Hs4)%plain_contains.
  unfold PingResp_init.
  assert (challenge_text c rlm svc
          = scheme_value c
            ++ " "%char :: ((s "realm" ++ "="%char :: in_quotes rlm)
                            ++ ","%char :: (s "service" ++ "="%char :: in_quotes svc)))
    as Hhdr.
  { reflexivity. }
  rewrite Hhdr at 1.
  rewrite split_app_sep by (by destruct c).
  rewrite split_no_sep.
  2:{ repeat (rewrite contains_app || (rewrite contains_in_quotes by done)
              || rewrite contains_cons).
      reflexivity. }
  rewrite split_app_sep.
  2:{ repeat (rewrite contains_app || (rewrite contains_in_quotes by done)
              || rewrite contains_cons).
      reflexivity. }
  rewrite split_no_sep.
  2:{ repeat (rewrite contains_app || (rewrite contains_in_quotes by done)
              || rewrite contains_cons).
      reflexivity. }
  cbn [dict_of_params].
  rewrite (split_app_sep "=" (s "realm") (in_quotes rlm)) by reflexivity.
  rewrite (split_no_sep "=" (in_quotes rlm)) by (by apply contains_in_quotes).
  rewrite (split_app_sep "=" (s "service") (in_quotes svc)) by reflexivity.
  rewrite (split_no_sep "=" (in_quotes svc)) by (by apply contains_in_quotes).
  cbn [bind].
  assert (ChallengeScheme_of (scheme_value c) = Ok c) as -> by (by destruct c).
  cbn [bind].
  rewrite lookup_insert_ne by done. rewrite lookup_insert_eq.
  rewrite lookup_insert_eq.
  by rewrite !strip_in_quotes.
Qed.

(** The challenge of the Docker Hub. *)
Lemma PingResp_init_challenge_text_witness :
  PingResp_init
    (challenge_text Bearer (s "https://auth.docker.io/token") (s "registry.docker.io"))
  = Ok {| headers := challenge_text Bearer (s "https://auth.docker.io/token")
                       (s "registry.docker.io");
          scheme := Bearer;
          realm := s "https://auth.docker.io/token";
          service := s "registry.docker.io" |}.
Proof.
  apply (PingResp_init_challenge_text Bearer (s "https://auth.docker.io/token")
           (s "registry.docker.io")); reflexivity.
Defined.

End ping_facts.

(** ** fetch_image_manifest *)
Section fetch_facts.
Import Py utlis client Props.

(** The three ways [fetch_image_manifest] goes. *)
Lemma fetch_image_manifest_cases w self image_path reference auth_info st :
  fetch_image_manifest w self image_path reference auth_info st =
    match reference with
    | None =>
        ({| dirs := dirs st; files := files st; log := log st ++ [AttributeError] |},
         Ok None)
    | Some ref =>
        if startswith (s "sha256:") ref
           && negb (bool_decide
                      (drop 7 ref
                       = hashlib.sha256_hexdigest
                           (resp_content
                              (_image_manifest w self (s "GET") image_path reference
                                 auth_info))))
        then ({| dirs := dirs st; files := files st; log := log st ++ [AssertionError] |},
              Ok None)
        else (st, Ok (Some (_image_manifest w self (s "GET") image_path reference auth_info)))
    end.
Proof.
  unfold fetch_image_manifest, logger_catch.
  destruct reference as [ref|]; [|reflexivity].
  destruct (startswith (s "sha256:") ref); [|reflexivity].
  unfold Py.eqb, _resp_sha256. by case_bool_decide.
Qed.

(** X13: [fetch_image_manifest] never raises and leaves the directories
    and the files as they are.  It returns the response to the GET request
    only for a reference that does not start with [sha256:], or whose text
    after [sha256:] is the SHA-256 of the body; for a body with another
    hash it logs [AssertionError] and returns [None], and for no reference
    at all it logs [AttributeError] and returns [None]. *)
Theorem fetch_image_manifest_outcomes (w : world) (self : ImageClient)
    (image_path : list ascii) (reference : option (list ascii))
    (auth_info : gmap (list ascii) (list ascii)) (st : state) :
  dirs (fst (fetch_image_manifest w self image_path reference auth_info st)) = dirs st /\
  files (fst (fetch_image_manifest w self image_path reference auth_info st)) = files st /\
  match snd (fetch_image_manifest w self image_path reference auth_info st) with
  | Ok (Some resp) =>
      resp = _image_manifest w self (s "GET") image_path reference auth_info /\
      log (fst (fetch_image_manifest w self image_path reference auth_info st)) = log st /\
      exists ref,
        reference = Some ref /\
        (startswith (s "sha256:") ref = true ->
         drop 7 ref = hashlib.sha256_hexdigest (resp_content resp))
  | Ok None =>
      (reference = None /\
       log (fst (fetch_image_manifest w self image_path reference auth_info st))
       = log st ++ [AttributeError]) \/
      (exists ref,
         reference = Some ref /\ startswith (s "sha256:") ref = true /\
         drop 7 ref
         <> hashlib.sha256_hexdigest
              (resp_content (_image_manifest w self (s "GET") image_path reference auth_info)) /\
         log (fst (fetch_image_manifest w self image_path reference auth_info st))
         = log st ++ [AssertionError])
  | Raise _ => False
  end.
Proof.
  rewrite fetch_image_manifest_cases.
  destruct reference as [ref|]; cbn [fst snd dirs files log].
  2:{ split; [done|]. split; [done|]. by left. }
  destruct (startswith (s "sha256:") ref) eqn:Hsw; cbn [andb].
  - case_bool_decide as Heq; cbn [negb fst snd dirs files log].
    + split; [done|]. split; [done|]. split; [done|]. split; [done|].
      exists ref. by split.
    + split; [done|]. split; [done|]. right. by exists ref.
  - cbn [fst snd dirs files log].
    split; [done|]. split; [done|]. split; [done|]. split; [done|].
    exists ref. split; [done|]. by rewrite Hsw.
Qed.

End fetch_facts.

(** ** The layer jobs *)
Section paths.
Import Py utlis client Props.

Lemma str_of_nat_no_slash n : contains "/" (str_of_nat n) = false.
Proof.
  unfold str_of_nat. generalize (Nat.to_uint n). intros d.
  induction d; simpl; done.
Qed.

(** A file name, that is a text that is not empty, has no slash and is not
    a dot, is one component without a root. *)
Lemma parse_parts_file_name q :
  q <> [] -> q <> s "." -> contains "/" q = false -> parse_parts q = (s "", [q]).
Proof.
  intros Hne Hdot Hs. unfold parse_parts, splitroot.
  assert (startswith (s "/") q = false) as ->.
  { destruct q as [|a q]; [done|]. rewrite contains_cons in Hs.
    apply orb_false_iff in Hs as [Ha _].
    change (startswith (s "/") (a :: q)) with (Ascii.eqb "/" a && true).
    by rewrite Ha. }
  rewrite split_no_sep by done. cbn [List.filter]. unfold Py.eqb.
  by rewrite !bool_decide_eq_false_2.
Qed.

Lemma join_cons_more sep x ys : ys <> [] -> join sep (x :: ys) = x ++ sep ++ join sep ys.
Proof. by destruct ys. Qed.

Lemma join_snoc sep xs q : exists pre, join sep (xs ++ [q]) = pre ++ q.
Proof.
  induction xs as [|x xs [pre IH]]; [by exists []|].
  cbn [app]. rewrite join_cons_more by (by destruct xs). rewrite IH.
  exists (x ++ sep ++ pre). by rewrite <- !app_assoc.
Qed.

(** Joining a file name to a path gives a text that ends with the name. *)
Lemma joinpath_file_name p q :
  q <> [] -> q <> s "." -> contains "/" q = false -> exists pre, joinpath p q = pre ++ q.
Proof.
  intros Hne Hdot Hs. unfold joinpath.
  destruct (parse_parts p) as [root parts]. rewrite parse_parts_file_name by done.
  unfold Py.eqb at 1. rewrite bool_decide_eq_true_2 by done. cbn [negb].
  unfold format_parsed_parts. destruct (join_snoc (s "/") parts q) as [pre ->].
  cbv zeta. rewrite app_assoc. unfold Py.eqb. rewrite bool_decide_eq_false_2.
  - by eexists.
  - intros H. apply (f_equal length) in H. rewrite length_app in H.
    destruct q; [done|]. simpl in H. lia.
Qed.

Lemma layer_tar_not_tmp save_dir digest index :
  layer_tar save_dir digest <> layer_tmp_file save_dir index.
Proof.
  unfold layer_tar, layer_tmp_file.
  destruct (joinpath_file_name (layer_dir save_dir digest) (s "layer.tar")) as [pre1 ->];
    [done..|].
  destruct (joinpath_file_name save_dir (s "layer_" ++ str_of_nat index ++ s ".tar.gz"))
    as [pre2 ->]; [done|done| |].
  { rewrite !contains_app, str_of_nat_no_slash. reflexivity. }
  intros H. apply (f_equal (@rev ascii)) in H. rewrite !rev_app_distr in H.
  simpl in H. discriminate.
Qed.

End paths.

Section layer_facts.
Import Py utlis client Props.

Variable w : world.
Variable self : ImageClient.
Variable base_url : list ascii.
Variable digest : Digest.
Variable save_dir : list ascii.
Variable headers : gmap (list ascii) (list ascii).
Variable index : nat.

Local Abbreviation job :=
  (_download_and_decompress_layer w self base_url digest save_dir headers index).
Local Abbreviation blob := (resp_content (layer_blob w self base_url digest headers)).
Local Abbreviation content_length :=
  (resp_headers (layer_blob w self base_url digest headers) !! s "content-length").
Local Abbreviation tmp := (layer_tmp_file save_dir index).
Local Abbreviation tar := (layer_tar save_dir digest).

(** The four ways a layer job goes. *)
Lemma layer_job_cases st :
  job st =
    if bool_decide (save_dir ∈ dirs st) then
      match int_of content_length with
      | Raise e =>
          ({| dirs := dirs st; files := <[tmp := Text (s "")]> (files st);
              log := log st ++ [e] |}, Ok None)
      | Ok _ =>
          if bool_decide (hashlib.sha256_hexdigest blob = drop 7 (value digest)) then
            ({| dirs := dirs st ∪ {[ layer_dir save_dir digest ]};
                files := delete tmp (<[tar := Gunzipped blob]> (<[tmp := Bytes blob]> (files st)));
                log := log st |}, Ok (Some tar))
          else
            ({| dirs := dirs st; files := <[tmp := Bytes blob]> (files st);
                log := log st ++ [AssertionError] |}, Ok None)
      end
    else
      ({| dirs := dirs st; files := files st;
          log := log st ++ [FileNotFoundError tmp] |}, Ok None).
Proof.
  unfold _download_and_decompress_layer, logger_catch.
  unfold mbind at 1. unfold open_w, write_file at 1.
  fold (layer_tmp_file save_dir index).
  case_bool_decide as Hd; [|reflexivity].
  unfold mbind at 1. unfold lift.
  fold (layer_blob w self base_url digest headers).
  destruct (int_of content_length) as [[]|e]; [|reflexivity].
  unfold mbind at 1. unfold write_file at 1. cbn [dirs files log].
  rewrite bool_decide_eq_true_2 by done.
  fold (layer_tmp_file save_dir index).
  rewrite insert_insert_eq.
  unfold mbind at 1. unfold Py.eqb.
  case_bool_decide as Hh; [|reflexivity].
  unfold ret at 1. unfold mbind at 1. unfold GZipDeCompress_do. cbn [dirs files log].
  rewrite lookup_insert_eq.
  unfold mbind at 1. unfold unlink. cbn [dirs files log].
  fold (layer_dir save_dir digest). fold (layer_tar save_dir digest).
  rewrite lookup_insert_ne by apply layer_tar_not_tmp.
  rewrite lookup_insert_eq. reflexivity.
Qed.

(** X14: when a layer job returns a path, it is the path of [layer.tar]
    in the directory named after the digest; the bytes of the blob hash to
    the digest; the file holds the decompressed blob; the temporary file is
    gone; the directory exists; and nothing was logged. *)
Theorem layer_job_success (st : state) (path : list ascii) :
  snd (job st) = Ok (Some path) ->
  path = tar /\
  hashlib.sha256_hexdigest blob = drop 7 (value digest) /\
  files (fst (job st)) !! path = Some (Gunzipped blob) /\
  files (fst (job st)) !! tmp = None /\
  layer_dir save_dir digest ∈ dirs (fst (job st)) /\
  log (fst (job st)) = log st.
Proof.
  rewrite layer_job_cases.
  case_bool_decide as Hd; [|done].
  destruct (int_of content_length) as [[]|e]; [|done].
  case_bool_decide as Hh; [|done].
  cbn [fst snd dirs files log]. intros [= <-].
  split; [done|]. split; [done|].
  split. { rewrite lookup_delete_ne by (apply not_eq_sym, layer_tar_not_tmp).
           by rewrite lookup_insert_eq. }
  split; [by rewrite lookup_delete_eq|].
  split; [set_solver|done].
Qed.

(** X15: a blob whose bytes do not hash to the digest is not decompressed:
    the job returns [None], logs [AssertionError], and leaves the blob in
    its temporary file and the directories as they were. *)
Theorem layer_job_digest_mismatch (st : state) :
  save_dir ∈ dirs st ->
  int_of content_length = Ok tt ->
  hashlib.sha256_hexdigest blob <> drop 7 (value digest) ->
  job st = ({| dirs := dirs st; files := <[tmp := Bytes blob]> (files st);
               log := log st ++ [AssertionError] |}, Ok None).
Proof.
  intros Hd Hc Hh. rewrite layer_job_cases.
  rewrite bool_decide_eq_true_2 by done. rewrite Hc.
  by rewrite bool_decide_eq_false_2 by done.
Qed.

(** What a layer job leaves as it is. *)
Lemma layer_job_effects (st : state) :
  (exists r, snd (job st) = Ok r) /\
  (forall p, p <> tmp -> p <> tar -> files (fst (job st)) !! p = files st !! p) /\
  dirs st ⊆ dirs (fst (job st)) /\
  dirs (fst (job st)) ⊆ dirs st ∪ {[ layer_dir save_dir digest ]} /\
  (log (fst (job st)) = log st \/ exists e, log (fst (job st)) = log st ++ [e]).
Proof.
  rewrite layer_job_cases.
  case_bool_decide as Hd.
  2:{ cbn [fst snd dirs files log]. split; [by eexists|]. split; [done|].
      split; [done|]. split; [set_solver|]. right. by eexists. }
  destruct (int_of content_length) as [[]|e].
  2:{ cbn [fst snd dirs files log]. split; [by eexists|].
      split; [intros p Hp _; by rewrite lookup_insert_ne|].
      split; [done|]. split; [set_solver|]. right. by eexists. }
  case_bool_decide as Hh; cbn [fst snd dirs files log].
  - split; [by eexists|].
    split. { intros p Hp1 Hp2. rewrite lookup_delete_ne by done.
             rewrite lookup_insert_ne by done. by rewrite lookup_insert_ne. }
    split; [set_solver|]. split; [set_solver|]. by left.
  - split; [by eexists|].
    split; [intros p Hp _; by rewrite lookup_insert_ne|].
    split; [done|]. split; [set_solver|]. right. by eexists.
Qed.

(** X16: a layer job never raises; it changes no file but its temporary
    file and the [layer.tar] of its digest, removes no directory, adds none
    but the directory of its digest, and logs at most one exception. *)
Theorem layer_job_frame (st : state) :
  (exists r, snd (job st) = Ok r) /\
  (forall p, p <> tmp -> p <> tar -> files (fst (job st)) !! p = files st !! p) /\
  dirs st ⊆ dirs (fst (job st)) /\
  dirs (fst (job st)) ⊆ dirs st ∪ {[ layer_dir save_dir digest ]} /\
  (log (fst (job st)) = log st \/ exists e, log (fst (job st)) = log st ++ [e]).
Proof. exact (layer_job_effects st). Qed.

End layer_facts.

Section layer_instances.
Import Py utlis client Props Scenarios.

(** The first layer of the image of [a.com], served as the manifest
    declares it. *)
Lemma layer_job_success_witness :
  layer_tar (s "/out") (digest_of layer0) = layer_tar (s "/out") (digest_of layer0) /\
  hashlib.sha256_hexdigest
    (resp_content (layer_blob (registry (s "https://a.com/v2/lib/foo") layer0) a_com
                     (s "lib/foo") (digest_of layer0) ∅))
  = drop 7 (value (digest_of layer0)) /\
  files (fst (_download_and_decompress_layer (registry (s "https://a.com/v2/lib/foo") layer0)
                a_com (s "lib/foo") (digest_of layer0) (s "/out") ∅ 0 out_dir))
    !! layer_tar (s "/out") (digest_of layer0)
  = Some (Gunzipped
            (resp_content (layer_blob (registry (s "https://a.com/v2/lib/foo") layer0) a_com
                             (s "lib/foo") (digest_of layer0) ∅))) /\
  files (fst (_download_and_decompress_layer (registry (s "https://a.com/v2/lib/foo") layer0)
                a_com (s "lib/foo") (digest_of layer0) (s "/out") ∅ 0 out_dir))
    !! layer_tmp_file (s "/out") 0 = None /\
  layer_dir (s "/out") (digest_of layer0)
  ∈ dirs (fst (_download_and_decompress_layer (registry (s "https://a.com/v2/lib/foo") layer0)
                 a_com (s "lib/foo") (digest_of layer0) (s "/out") ∅ 0 out_dir)) /\
  log (fst (_download_and_decompress_layer (registry (s "https://a.com/v2/lib/foo") layer0)
              a_com (s "lib/foo") (digest_of layer0) (s "/out") ∅ 0 out_dir))
  = log out_dir.
Proof.
  apply (layer_job_success (registry (s "https://a.com/v2/lib/foo") layer0) a_com
           (s "lib/foo") (digest_of layer0) (s "/out") ∅ 0 out_dir).
  vm_compute. reflexivity.
Defined.

(** The first layer of the image of [a.com], served with other bytes. *)
Lemma layer_job_digest_mismatch_witness :
  _download_and_decompress_layer (registry (s "https://a.com/v2/lib/foo") (s "other bytes"))
    a_com (s "lib/foo") (digest_of layer0) (s "/out") ∅ 0 out_dir
  = ({| dirs := dirs out_dir;
        files := <[layer_tmp_file (s "/out") 0 := Bytes (s "other bytes")]> (files out_dir);
        log := log out_dir ++ [AssertionError] |}, Ok None).
Proof.
  apply (layer_job_digest_mismatch (registry (s "https://a.com/v2/lib/foo") (s "other bytes"))
           a_com (s "lib/foo") (digest_of layer0) (s "/out") ∅ 0 out_dir).
  - unfold out_dir. cbn [dirs]. set_solver.
  - vm_compute. reflexivity.
  - intros H. vm_compute in H. discriminate H.
Defined.

End layer_instances.

(** ** The checks of a pull *)
Section pull_facts.
Import Py utlis client Props.


End pull_facts.

(** ** The shape of a SHA-256 text *)
Section sha256_shape.
Import Py Re utlis reference Props.

Lemma round_length st kw : length (hashlib.round st kw) = length st.
Proof.
  unfold hashlib.round.
  destruct st as [|a [|b [|c [|d [|e [|f [|g [|h [|i st]]]]]]]]]; reflexivity.
Qed.

Lemma fold_round_length l : forall h,
  length (fold_left hashlib.round l h) = length h.
Proof.
  induction l as [|kw l IH]; intros h; simpl; [done|].
  by rewrite IH, round_length.
Qed.

Lemma compress_length h block : length (hashlib.compress h block) = length h.
Proof.
  unfold hashlib.compress. rewrite length_fmap, length_zip_with, fold_round_length. lia.
Qed.

Lemma blocks_length n : forall h bs, length (hashlib.blocks n h bs) = length h.
Proof.
  induction n as [|n IH]; intros h bs; simpl; [done|].
  by rewrite IH, compress_length.
Qed.

Lemma be_bytes_bound n x : Forall (fun b => (b < 256)%N) (hashlib.be_bytes n x).
Proof.
  unfold hashlib.be_bytes. apply Forall_fmap, Forall_forall. intros i _. simpl.
  change 255%N with (N.ones 8). rewrite N.land_ones. by apply N.mod_lt.
Qed.

Lemma digest_length msg : length (hashlib.digest msg) = 32.
Proof.
  unfold hashlib.digest.
  pose proof (blocks_length (length (hashlib.pad msg) / 64) hashlib.H0 (hashlib.pad msg)) as Hl.
  change (length hashlib.H0) with 8 in Hl.
  revert Hl. generalize (hashlib.blocks (length (hashlib.pad msg) / 64) hashlib.H0
                           (hashlib.pad msg)).
  intros l Hl.
  assert (forall l : list N, length (l ≫= hashlib.be_bytes 4) = 4 * length l) as ->.
  { clear. induction l as [|x l IH]; [done|].
    change ((x :: l) ≫= hashlib.be_bytes 4)
      with (hashlib.be_bytes 4 x ++ (l ≫= hashlib.be_bytes 4)).
    rewrite length_app, IH. unfold hashlib.be_bytes. rewrite length_fmap. simpl. lia. }
  lia.
Qed.

Lemma digest_bound msg : Forall (fun b => (b < 256)%N) (hashlib.digest msg).
Proof.
  unfold hashlib.digest. apply Forall_bind, Forall_forall. intros x _. apply be_bytes_bound.
Qed.

Lemma hexdigit_lower (n : N) : (n < 16)%N -> lower_xdigit (hashlib.hexdigit n) = true.
Proof.
  intros H.
  assert (forallb (fun k => lower_xdigit (hashlib.hexdigit (N.of_nat k))) (seq 0 16) = true)
    as Hall by (vm_compute; reflexivity).
  rewrite forallb_forall in Hall. specialize (Hall (N.to_nat n)).
  rewrite N2Nat.id in Hall. apply Hall, in_seq. lia.
Qed.

Lemma hex_length bs : length (hashlib.hex bs) = 2 * length bs.
Proof.
  unfold hashlib.hex. induction bs as [|b bs IH]; [done|].
  change (length (hashlib.hexdigit (N.shiftr b 4) :: hashlib.hexdigit (N.land b 15)
                  :: (bs ≫= fun b => [hashlib.hexdigit (N.shiftr b 4);
                                      hashlib.hexdigit (N.land b 15)]))
          = 2 * length (b :: bs)).
  simpl. rewrite IH. lia.
Qed.

Lemma hex_lower bs :
  Forall (fun b => (b < 256)%N) bs -> forallb lower_xdigit (hashlib.hex bs) = true.
Proof.
  unfold hashlib.hex. induction 1 as [|b bs Hb _ IH]; [done|].
  change (forallb lower_xdigit
            (hashlib.hexdigit (N.shiftr b 4) :: hashlib.hexdigit (N.land b 15)
             :: (bs ≫= fun b => [hashlib.hexdigit (N.shiftr b 4);
                                 hashlib.hexdigit (N.land b 15)])) = true).
  cbn [forallb]. rewrite IH, !hexdigit_lower; [done| |].
  - change 15%N with (N.ones 4). rewrite N.land_ones. by apply N.mod_lt.
  - rewrite N.shiftr_div_pow2. apply N.Div0.div_lt_upper_bound. exact Hb.
Qed.

(** The text of a SHA-256 is 64 lowercase hexadecimal characters. *)
Lemma sha256_hexdigest_shape x :
  length (hashlib.sha256_hexdigest x) = 64 /\
  forallb lower_xdigit (hashlib.sha256_hexdigest x) = true.
Proof.
  unfold hashlib.sha256_hexdigest. split.
  - by rewrite hex_length, digest_length.
  - apply hex_lower, digest_bound.
Qed.

Lemma lang_star_chr p w : forallb p w = true -> lang (Star (Chr p)) w.
Proof.
  induction w as [|a w IH]; simpl; [constructor|].
  intros [Ha Hw]%andb_true_iff.
  change (a :: w) with ([a] ++ w). apply LStarS; [by constructor|by apply IH].
Qed.

Lemma lang_exactly_chr p n : forall w,
  length w = n -> forallb p w = true -> lang (Exactly n (Chr p)) w.
Proof.
  induction n as [|n IH]; intros w Hl Hw.
  - destruct w; [constructor|done].
  - destruct w as [|a w]; [done|]. simpl in *.
    apply andb_true_iff in Hw as [Ha Hw].
    change (a :: w) with ([a] ++ w). apply LSeq; [by constructor|]. apply IH; [lia|done].
Qed.

Lemma lang_atleast_chr p n w :
  n <= length w -> forallb p w = true -> lang (AtLeast n (Chr p)) w.
Proof.
  intros Hl Hw. rewrite <- (take_drop n w) in Hw |- *.
  rewrite forallb_app in Hw. apply andb_true_iff in Hw as [H1 H2].
  apply LSeq.
  - apply lang_exactly_chr; [|done]. rewrite length_take. lia.
  - by apply lang_star_chr.
Qed.

Lemma lower_xdigit_xdigit w : forallb lower_xdigit w = true -> forallb xdigit w = true.
Proof.
  induction w as [|a w IH]; simpl; [done|].
  intros [Ha Hw]%andb_true_iff. rewrite IH by done.
  unfold lower_xdigit in Ha. unfold xdigit.
  apply orb_true_iff in Ha as [-> | ->]; by rewrite ?orb_true_r.
Qed.

(** [sha256:] and a SHA-256 text is a digest of the grammar. *)
Lemma sha256_digest_lang x : lang DIGEST_REGEXP (s "sha256:" ++ hashlib.sha256_hexdigest x).
Proof.
  destruct (sha256_hexdigest_shape x) as [Hl Hc].
  unfold DIGEST_REGEXP.
  change (s "sha256:" ++ hashlib.sha256_hexdigest x)
    with ([ "s"%char ] ++ s "ha256" ++ [] ++ [ ":"%char ] ++ hashlib.sha256_hexdigest x).
  apply LSeq; [by constructor|].
  apply LSeq; [by apply lang_star_chr|].
  apply LSeq; [constructor|].
  apply LSeq; [by constructor|].
  apply lang_atleast_chr; [lia|by apply lower_xdigit_xdigit].
Qed.

Lemma get_chain_id_digest ids : forall parent,
  parent <> [] -> ids <> [] ->
  exists x, get_chain_id parent ids = s "sha256:" ++ hashlib.sha256_hexdigest x.
Proof.
  induction ids as [|id0 ids IH]; intros parent Hp Hi; [done|].
  cbn [get_chain_id]. unfold Py.eqb. rewrite bool_decide_eq_false_2 by done.
  destruct ids as [|id1 ids].
  - by eexists.
  - apply IH; done.
Qed.

(** X18: the chain ID of a parent that is not empty and of at least one
    diff ID is [sha256:] and 64 lowercase hexadecimal characters, and it is
    a digest of the reference grammar. *)
Theorem get_chain_id_is_digest (parent : list ascii) (ids : list (list ascii)) :
  parent <> [] -> ids <> [] ->
  (exists hex,
     get_chain_id parent ids = s "sha256:" ++ hex /\
     length hex = 64 /\ forallb lower_xdigit hex = true) /\
  is_Some (fullmatch DIGEST_REGEXP (get_chain_id parent ids)).
Proof.
  intros Hp Hi. destruct (get_chain_id_digest ids parent Hp Hi) as [x ->].
  split.
  - exists (hashlib.sha256_hexdigest x). split; [done|]. apply sha256_hexdigest_shape.
  - apply fullmatch_complete, sha256_digest_lang.
Qed.

(** The chain ID of the diff ID [b] after the parent [a]. *)
Lemma get_chain_id_is_digest_witness :
  (exists hex,
     get_chain_id (s "a") [s "b"] = s "sha256:" ++ hex /\
     length hex = 64 /\ forallb lower_xdigit hex = true) /\
  is_Some (fullmatch DIGEST_REGEXP (get_chain_id (s "a") [s "b"])).
Proof.
  apply (get_chain_id_is_digest (s "a") [s "b"]); discriminate.
Defined.

End sha256_shape.

(** ** split_domain *)
Section split_domain_facts.
Import Py Re utlis reference Props.

(** X23: [split_domain] gives the domain and the path of a name that
    matches the anchored name pattern: the name is the path when the domain
    is empty, and the domain, a slash and the path otherwise; the domain has
    no slash and the path is not empty.  For any other text it raises
    [IndexError]. *)
Theorem split_domain_parts (name : list ascii) :
  match split_domain name with
  | Ok (domain, path) =>
      name = (if Py.eqb domain (s "") then path else domain ++ s "/" ++ path) /\
      contains "/" domain = false /\ path <> [] /\
      is_Some (fullmatch ANCHORED_NAME_REGEXP name)
  | Raise e => e = IndexError /\ fullmatch ANCHORED_NAME_REGEXP name = None
  end.
Proof.
  unfold split_domain, findall.
  destruct (fullmatch ANCHORED_NAME_REGEXP name) as [c|] eqn:Hm; [|done].
  destruct (anchored_name_match _ _ Hm) as (dm & p & -> & Hy & Hdm).
  destruct (anchored_name_match_langs _ _ Hm) as (dm' & p' & Hc & Hld & Hlp).
  injection Hc as <- <-.
  cbn [groups fmap list_fmap]. change (default [] (Some p)) with p.
  split; [symmetry; by apply name_of_parts|].
  split.
  { destruct dm as [dv|]; [|reflexivity]. cbn [default id from_option].
    assert (forallb (fun c => negb (Ascii.eqb "/" c)) dv = true) as Hno.
    { eapply lang_within; [by apply Hld|]. vm_compute. reflexivity. }
    unfold contains. apply not_true_is_false. intros He.
    apply existsb_exists in He as (c & Hc & Hc').
    rewrite forallb_forall in Hno. specialize (Hno c Hc). by rewrite Hc' in Hno. }
  split; [|by eexists].
  eapply lang_nonempty; [exact Hlp|reflexivity].
Qed.

End split_domain_facts.

(** ** A pull ends before its first request *)
Section pull_always.
Import Py utlis client Props.

Variable w : world.
Variable repo : option (list ascii).
Variable self : ImageClient.
Variables image_name repo_name reference save_dir : list ascii.

(** X22: whatever the registry serves, [pull_image] logs one exception,
    returns [None] and leaves the directories and the files as they were:
    without the save directory the exception says that it does not exist,
    and with it the exception is the [TypeError] of the call
    [RepositoryScope(image_name_with_repo, ["pull"])], which passes the
    fields of a pydantic model by position. *)
Theorem pull_image_outcomes (st : state) :
  pull_image w repo self image_name repo_name reference save_dir st
  = ({| dirs := dirs st; files := files st;
        log := log st ++ [if bool_decide (save_dir ∈ dirs st) then TypeError
                          else Exception (s "save dir " ++ save_dir ++ s " not exists")] |},
     Ok None).
Proof. exact (pull_image_cases w repo self image_name repo_name reference save_dir st). Qed.

(** X24: [pull_image] never returns a value and never raises: in every
    state it returns [None], and the log it leaves is the log it found, then
    what the steps it took logged, then one exception of its own. *)
Theorem pull_image_never_completes (st : state) :
  snd (pull_image w repo self image_name repo_name reference save_dir st) = Ok None /\
  exists l e,
    log (fst (pull_image w repo self image_name repo_name reference save_dir st))
    = log st ++ l ++ [e].
Proof.
  rewrite pull_image_cases. cbn [fst snd log]. split; [done|].
  eexists [], _. reflexivity.
Qed.


End pull_always.

(** ** The layer whose bytes do not hash to its digest *)
Section digest_mismatch.
Import Py utlis client Props Scenarios.




End digest_mismatch.

(** ** The authorization header and the catalog *)
Section auth_facts.
Import Py utlis client Props.


(** X27: when the registry answers the ping with a challenge that
    [PingResp] accepts and whose scheme is [Bearer], [auth_header] raises
    [TypeError]: the handler is called with four arguments by position,
    and [ChallengeHandler.__init__(self, **data)] takes none. *)
Theorem auth_header_bearer_raises (w : world) (host : list ascii)
    (username password : option (list ascii)) (scheme : list ascii)
    (scope : ScopeType) (challenge : list ascii) (ping_resp : PingResp) :
  resp_headers
    (http w {| method := s "GET";
               url := _base_url (ImageClient_init host username password scheme) ++ s "/v2/";
               req_headers := ∅ |}) !! s "WWW-Authenticate" = Some challenge ->
  PingResp_init challenge = Ok ping_resp ->
  utlis.scheme ping_resp = Bearer ->
  auth_header w (ImageClient_init host username password scheme) scope = Raise TypeError.
Proof.
  intros Hh Hp Hs. unfold auth_header. cbn [_pinged ImageClient_init].
  unfold ping. rewrite Hh, Hp. cbn [bind].
  by apply handle_challenges_bearer.
Qed.

(** X28: [auth_header] returns the empty dictionary or raises: no call of
    it yields an [Authorization] header. *)
Theorem auth_header_only_empty (w : world) (self : ImageClient) (scope : ScopeType) :
  auth_header w self scope = Ok ∅ \/ exists e, auth_header w self scope = Raise e.
Proof.
  unfold auth_header.
  destruct (if _pinged self then Ok (_ping_resp self) else ping w self) as [[p|]|e];
    cbn [bind]; [| by left | by right; eexists].
  destruct (utlis.scheme p) eqn:Hs.
  - rewrite handle_challenges_bearer by done. right. by eexists.
  - rewrite handle_challenges_basic by (by rewrite Hs). by left.
Qed.

End auth_facts.

Section auth_instances.
Import Py utlis client Props Scenarios.

(** A registry that sends a Bearer challenge. *)
Lemma auth_header_bearer_raises_witness :
  auth_header (challenging (challenge_text Bearer (s "registry") (s "a.com"))) a_com pull_scope
  = Raise TypeError.
Proof.
  eapply (auth_header_bearer_raises
            (challenging (challenge_text Bearer (s "registry") (s "a.com")))
            (s "a.com") None None (s "https") pull_scope
            (challenge_text Bearer (s "registry") (s "a.com"))).
  - vm_compute. reflexivity.
  - vm_compute. reflexivity.
  - reflexivity.
Defined.

End auth_instances.
